(** * task-cli.js: a shallow embedding and its properties

    The program is a command-line task tracker.  Every invocation reads the
    whole collection from [task.json], transforms it in memory, and (for the
    mutating commands) writes it back.

    Layout of this file:
    - [Text]: strings as the host language scans them (white space, digits);
    - [Num]: the numbers the program meets, [parseInt], string to number and
      number to string conversion, [toISOString];
    - [Json]: parsed JSON values with the coercions the program applies to
      them ([Number(..)], template strings, truthiness, property access);
    - [Proc]: the process: data file, console, [process.exit], exceptions;
    - [TaskCli]: the functions of [src/task-cli.js], one definition each, and
      what it is to run the program once, and several times in a row;
    - [Notions]: the vocabulary of the properties;
    - the properties: [Handlers], [Search] and [Lookup] compute what each
      invocation does; [Rounding] tells which integers are read exactly;
      [Persistence], [Arguments], [Addressing] and [Lifecycle] state and
      prove the properties of the specification;
      [Calendar] orders the timestamps; [Dispatch], [NextId], [Listing],
      [Outcome], [Composition], [IdText] and [Marking] prove what else the
      code shows: the command line, the next id, what [list] prints, how an
      invocation ends, how invocations compose; [Scenarios] runs the
      scenarios of the specification. *)

From Stdlib Require Import ZArith String Ascii List Lia Sorted.
From stdpp Require Import base option list sorting gmap strings pretty.

Set Warnings "-register-all,-clear-no-such-hyp".
Set Default Proof Using "Type".

(** ** Strings

    A JavaScript string is a sequence of UTF-16 code units.  The model carries
    the code units below 256, one [ascii] each. *)
Module Text.

Definition code (c : ascii) : Z := Z.of_N (N_of_ascii c).

(** [StrWhiteSpaceChar] restricted to code units below 256: TAB, LF, VT, FF,
    CR, SP and NBSP. *)
Definition isStrWhiteSpaceChar (c : ascii) : bool :=
  match N_of_ascii c with
  | 9 | 10 | 11 | 12 | 13 | 32 | 160 => true
  | _ => false
  end%N.

Fixpoint trimStart (s : string) : string :=
  match s with
  | String c r => if isStrWhiteSpaceChar c then trimStart r else s
  | EmptyString => EmptyString
  end.

Fixpoint trimEnd (s : string) : string :=
  match s with
  | String c r =>
      match trimEnd r with
      | EmptyString => if isStrWhiteSpaceChar c then EmptyString else String c EmptyString
      | r' => String c r'
      end
  | EmptyString => EmptyString
  end.

Definition trim (s : string) : string := trimEnd (trimStart s).

(** The value of [c] as a digit in radix [R] (digits, then letters of either
    case), if it is one. *)
Definition radixDigit (R : Z) (c : ascii) : option Z :=
  let n := code c in
  let v := (if (48 <=? n) && (n <=? 57) then Some (n - 48)
            else if (97 <=? n) && (n <=? 122) then Some (n - 87)
            else if (65 <=? n) && (n <=? 90) then Some (n - 55)
            else None)%Z in
  match v with
  | Some d => if (d <? R)%Z then Some d else None
  | None => None
  end.

(** Longest prefix of digits of [s], with what follows it. *)
Fixpoint scanDigits (R : Z) (s : string) : list Z * string :=
  match s with
  | String c r =>
      match radixDigit R c with
      | Some d => let '(ds, rest) := scanDigits R r in (d :: ds, rest)
      | None => ([], s)
      end
  | EmptyString => ([], EmptyString)
  end.

Definition digitsValue (R : Z) (ds : list Z) : Z :=
  fold_left (λ acc d, acc * R + d)%Z ds 0%Z.

(** [Array.prototype.join] on strings. *)
Fixpoint join (sep : string) (l : list string) : string :=
  match l with
  | [] => EmptyString
  | [s] => s
  | s :: r => s +:+ sep +:+ join sep r
  end.

Definition zeros (n : nat) : string := string_of_list_ascii (replicate n "0"%char).

(** [String.prototype.padStart(n, "0")]. *)
Definition padStart0 (n : nat) (s : string) : string :=
  zeros (n - String.length s) +:+ s.

End Text.

(** ** Numbers

    A JavaScript number is an IEEE double.  A finite double is a rational
    number, and the model carries it by its value: an integer ([Int]), or
    the decimal fraction [m / 10^k] with [m] not divisible by ten ([Frac]),
    of which a double that is not an integer has exactly one.  A number read
    from text, by [parseInt] or by [Number], is the double nearest to what
    the text denotes ([nearestDouble]); where the language leaves the
    rounding of a text of more than twenty significant digits to the
    implementation, the model rounds to the nearest double, as
    implementations do.  Zero has one sign: the program cannot tell [-0]
    from [0].  The only arithmetic of the program is the successor of the
    largest id ([TaskCli.plus1]). *)
Module Num.
Import Text.

Inductive number : Type :=
  | NaN
  | Infinity (negative : bool)
  | Int (z : Z)
  | Frac (m : Z) (k : positive).

#[global] Instance number_eq_dec : EqDecision number.
Proof. solve_decision. Defined.

(** The finite numbers, as doubles are but for [NaN] and the infinities:
    the numbers of the value of a JSON text, which has no notation for the
    others. *)
Inductive finite : Type :=
  | Whole (z : Z)
  | Part (m : Z) (k : positive).

#[global] Instance finite_eq_dec : EqDecision finite.
Proof. solve_decision. Defined.

Definition ofFinite (x : finite) : number :=
  match x with
  | Whole z => Int z
  | Part m k => Frac m k
  end.

(** [x === y] on numbers: [NaN] differs from itself. *)
Definition strictEquals (x y : number) : bool :=
  match x, y with
  | NaN, _ | _, NaN => false
  | _, _ => bool_decide (x = y)
  end.

Definition isNaN (x : number) : bool :=
  match x with NaN => true | _ => false end.

(** [Number.isInteger(n) && n > 0], with the integer when it holds. *)
Definition positiveInteger (x : number) : option Z :=
  match x with
  | Int z => if (0 <? z)%Z then Some z else None
  | _ => None
  end.

(** [m * 10^(-k)] in canonical form. *)
Fixpoint normalise (m : Z) (k : nat) : number :=
  match k with
  | O => Int m
  | S k' => if (m mod 10 =? 0)%Z then normalise (m / 10) k'
            else Frac m (Pos.of_succ_nat k')
  end.

(** [- x] *)
Definition negate (x : number) : number :=
  match x with
  | NaN => NaN
  | Infinity neg => Infinity (negb neg)
  | Int z => Int (- z)
  | Frac m k => Frac (- m) k
  end.

Definition withSign (neg : bool) (x : number) : number := if neg then negate x else x.

(** [n / d] rounded to the nearest integer, to the even one of two that are
    equally near; [n] is not negative and [d] is positive. *)
Definition roundHalfEven (n d : Z) : Z :=
  let q := (n / d)%Z in
  let r := (n mod d)%Z in
  if (2 * r <? d)%Z then q
  else if (d <? 2 * r)%Z then (q + 1)%Z
  else if Z.even q then q else (q + 1)%Z.

(** [a / b] divided by [2^e], as a fraction. *)
Definition over2 (a b e : Z) : Z * Z :=
  if (0 <=? e)%Z then (a, b * 2 ^ e)%Z else (a * 2 ^ (- e), b)%Z.

(** The binary exponent of [a / b], for positive [a] and [b]: the [e] with
    [2^e <= a / b < 2^(e + 1)]. *)
Definition exponent (a b : Z) : Z :=
  let e := (Z.log2 a - Z.log2 b)%Z in
  let '(n, d) := over2 a b e in
  if (n <? d)%Z then (e - 1)%Z else e.

(** The double nearest to [a / b], for [a] not negative and [b] positive.
    The doubles of a binary exponent [e] are the multiples [m * 2^q] of
    [2^q], where [q] is [e - 52], and -1074 when that is less; the nearest
    multiple is taken, the one with [m] even of two that are equally near,
    and [Infinity] when it is 2^1024 or more. *)
Definition nearestDouble (a b : Z) : number :=
  if (a =? 0)%Z then Int 0
  else
    let q := (Z.max (exponent a b) (-1022) - 52)%Z in
    let '(n, d) := over2 a b q in
    let m := roundHalfEven n d in
    if (1024 <=? Z.log2 m + q)%Z then Infinity false
    else if (0 <=? q)%Z then Int (m * 2 ^ q)
    else normalise (m * 5 ^ (- q)) (Z.to_nat (- q)).

(** The double nearest to [m * 10^e]. *)
Definition decimal (m e : Z) : number :=
  withSign (m <? 0)%Z
    (if (0 <=? e)%Z then nearestDouble (Z.abs m * 10 ^ e) 1
     else nearestDouble (Z.abs m) (10 ^ (- e))).

Definition splitSign (s : string) : bool * string :=
  match s with
  | String "-" r => (true, r)
  | String "+" r => (false, r)
  | _ => (false, s)
  end.

Definition applySign (neg : bool) (z : Z) : Z := if neg then (- z)%Z else z.

(** [parseInt(s, R)] for a string [s]: leading white space, a sign, the
    longest run of digits; [NaN] when there is no digit, and otherwise the
    double nearest to the integer that the digits denote.  Radix 0 means 10,
    and radix 16 (or 0) accepts a [0x] prefix. *)
Definition parseInt (s : string) (R : Z) : number :=
  let '(neg, s1) := splitSign (trimStart s) in
  if negb (R =? 0)%Z && ((R <? 2)%Z || (36 <? R)%Z) then NaN
  else
    let strip := (R =? 0)%Z || (R =? 16)%Z in
    let '(R', s2) :=
      match strip, s1 with
      | true, String "0" (String "x" r) | true, String "0" (String "X" r) => (16%Z, r)
      | _, _ => (if (R =? 0)%Z then 10%Z else R, s1)
      end in
    match scanDigits R' s2 with
    | ([], _) => NaN
    | (ds, _) => withSign neg (nearestDouble (digitsValue R' ds) 1)
    end.

(** [StrUnsignedDecimalLiteral] without [Infinity]: mantissa and exponent. *)
Definition unsignedDecimal (s : string) : option (Z * Z) :=
  let '(ip, r1) := scanDigits 10 s in
  let '(fp, r2) :=
    match r1 with
    | String "." r => scanDigits 10 r
    | _ => ([], r1)
    end in
  let m := digitsValue 10 (ip ++ fp) in
  let scale := Z.of_nat (length fp) in
  match ip ++ fp with
  | [] => None
  | _ =>
      match r2 with
      | EmptyString => Some (m, - scale)%Z
      | String "e" r3 | String "E" r3 =>
          let '(neg, r4) := splitSign r3 in
          match scanDigits 10 r4 with
          | ([], _) => None
          | (es, EmptyString) => Some (m, applySign neg (digitsValue 10 es) - scale)%Z
          | (_, String _ _) => None
          end
      | String _ _ => None
      end
  end.

Definition nonDecimal (R : Z) (s : string) : number :=
  match scanDigits R s with
  | ([], _) => NaN
  | (ds, EmptyString) => nearestDouble (digitsValue R ds) 1
  | (_, String _ _) => NaN
  end.

(** [StringToNumber]: what [Number(s)] is for a string [s]. *)
Definition StringToNumber (s : string) : number :=
  match trim s with
  | EmptyString => Int 0
  | String "0" (String "x" r) | String "0" (String "X" r) => nonDecimal 16 r
  | String "0" (String "o" r) | String "0" (String "O" r) => nonDecimal 8 r
  | String "0" (String "b" r) | String "0" (String "B" r) => nonDecimal 2 r
  | t =>
      let '(neg, body) := splitSign t in
      if String.eqb body "Infinity" then Infinity neg
      else match unsignedDecimal body with
           | Some (m, e) => decimal (applySign neg m) e
           | None => NaN
           end
  end.

Fixpoint stripZerosEnd (s : string) : string :=
  match s with
  | String c r =>
      match stripZerosEnd r with
      | EmptyString => if Ascii.eqb c "0" then EmptyString else String c EmptyString
      | r' => String c r'
      end
  | EmptyString => EmptyString
  end.

(** The text of the positive number [0.s * 10^n], where [s] holds its
    significant digits ([Number::toString], radix 10). *)
Definition digitsToString (s : string) (n : Z) : string :=
  let k := Z.of_nat (String.length s) in
  if ((k <=? n) && (n <=? 21))%Z then s +:+ zeros (Z.to_nat (n - k))
  else if ((0 <? n) && (n <=? 21))%Z then
    substring 0 (Z.to_nat n) s +:+ "." +:+ substring (Z.to_nat n) (Z.to_nat (k - n)) s
  else if ((-6 <? n) && (n <=? 0))%Z then "0." +:+ zeros (Z.to_nat (- n)) +:+ s
  else
    let e := (n - 1)%Z in
    let es := (if (e <? 0)%Z then "-" else "+") +:+ pretty (Z.abs e) in
    match s with
    | String d EmptyString => String d ("e" +:+ es)
    | String d r => String d ("." +:+ r +:+ "e" +:+ es)
    | EmptyString => EmptyString
    end.

(** The number of decimal digits of a positive integer. *)
Definition digits (a : Z) : Z := Z.of_nat (String.length (pretty a)).

(** [s * 10^p], for [s] not negative, as a fraction. *)
Definition times10 (s p : Z) : Z * Z :=
  if (0 <=? p)%Z then (s * 10 ^ p, 1)%Z else (s, 10 ^ (- p))%Z.

(** The decimal exponent of [a / b], for positive [a] and [b]: the [n] with
    [10^(n - 1) <= a / b < 10^n]. *)
Definition magnitude (a b : Z) : Z :=
  let n := (digits a - digits b)%Z in
  let '(c, d) := times10 1 n in
  if (a * d <? b * c)%Z then n else (n + 1)%Z.

(** The integers [s] of [k] digits for which [s * 10^(n - k)] is nearest to
    [a / b] from below and above, the nearer one first, the even one first
    of two that are equally near. *)
Definition candidates (a b n k : Z) : list Z :=
  let '(c, d) := times10 1 (n - k) in
  let lo := ((a * d) / (b * c))%Z in
  let r := ((a * d) mod (b * c))%Z in
  if (r =? 0)%Z then [lo]
  else if (2 * r <? b * c)%Z then [lo; lo + 1]%Z
  else if (b * c <? 2 * r)%Z then [lo + 1; lo]%Z
  else if Z.even lo then [lo; lo + 1]%Z else [lo + 1; lo]%Z.

(** The shortest digits that are read back as the double [x], which is
    nearest to [a / b]: the least [k], up to [fuel], and the first of the
    candidates [s] of [k] digits with [s * 10^(n - k)] of nearest double
    [x]; with [s], the exponent [n - k]. *)
Fixpoint shortest (x : number) (a b n k : Z) (fuel : nat) : Z * Z :=
  let good s := let '(c, d) := times10 s (n - k) in bool_decide (nearestDouble c d = x) in
  match fuel with
  | O => (hd 0%Z (candidates a b n k), (n - k)%Z)
  | S fuel' =>
      match List.filter good (candidates a b n k) with
      | s :: _ => (s, (n - k)%Z)
      | [] => shortest x a b n (k + 1) fuel'
      end
  end.

(** [Number::toString] on the positive double nearest to [a / b]: seventeen
    digits tell any two doubles apart. *)
Definition positiveToString (a b : Z) : string :=
  let '(s, p) := shortest (nearestDouble a b) a b (magnitude a b) 1 16 in
  digitsToString (stripZerosEnd (pretty s)) (digits s + p).

(** [String(x)] for a number [x]: the shortest digits that are read back
    as [x].  Up to 2^53 in magnitude every integer is a double, and its
    shortest digits are those of its decimal notation
    ([Scenarios.positiveToString_samples]). *)
Definition toString (x : number) : string :=
  match x with
  | NaN => "NaN"
  | Infinity neg => if neg then "-Infinity" else "Infinity"
  | Int z =>
      if (z =? 0)%Z then "0"
      else
        (if (z <? 0)%Z then "-" else "") +:+
        (if (Z.abs z <=? 2 ^ 53)%Z then
           let full := pretty (Z.abs z) in
           digitsToString (stripZerosEnd full) (Z.of_nat (String.length full))
         else positiveToString (Z.abs z) 1)
  | Frac m k =>
      (if (m <? 0)%Z then "-" else "") +:+ positiveToString (Z.abs m) (10 ^ Z.pos k)
  end.

(** [new Date(ms).toISOString()] for a time value [ms], the milliseconds
    since the epoch: the civil date of the day number, then the time of day.
    Years outside 0..9999 take a sign and six digits. *)
Definition civilFromDays (days : Z) : Z * Z * Z :=
  let z := (days + 719468)%Z in
  let era := (z / 146097)%Z in
  let doe := (z - era * 146097)%Z in
  let yoe := ((doe - doe / 1460 + doe / 36524 - doe / 146096) / 365)%Z in
  let doy := (doe - (365 * yoe + yoe / 4 - yoe / 100))%Z in
  let mp := ((5 * doy + 2) / 153)%Z in
  let d := (doy - (153 * mp + 2) / 5 + 1)%Z in
  let m := (if mp <? 10 then mp + 3 else mp - 9)%Z in
  let y := (yoe + era * 400 + (if m <=? 2 then 1 else 0))%Z in
  (y, m, d).

Definition pad (n : nat) (z : Z) : string := padStart0 n (pretty (Z.abs z)).

Definition toISOString (ms : Z) : string :=
  let '(y, m, d) := civilFromDays (ms / 86400000) in
  let t := (ms mod 86400000)%Z in
  let year := if ((0 <=? y) && (y <=? 9999))%Z then pad 4 y
              else (if (y <? 0)%Z then "-" else "+") +:+ pad 6 y in
  year +:+ "-" +:+ pad 2 m +:+ "-" +:+ pad 2 d +:+ "T" +:+
  pad 2 (t / 3600000) +:+ ":" +:+ pad 2 (t / 60000 mod 60) +:+ ":" +:+
  pad 2 (t / 1000 mod 60) +:+ "." +:+ pad 3 (t mod 1000) +:+ "Z".

End Num.

(** ** JSON values and the coercions applied to them *)
Module Json.
Import Text Num.

(** What [JSON.parse] returns.  An object is a finite map from property names
    to values, which is all the program (and [JSON.stringify]) observes of
    it; a number is a finite double. *)
Inductive json : Type :=
  | JNull
  | JBool (b : bool)
  | JNum (x : finite)
  | JStr (s : string)
  | JArr (l : list json)
  | JObj (m : gmap string json).

(** The number [x] as a JSON value: [JSON.stringify] writes a number that
    is not finite as [null]. *)
Definition ofNumber (x : number) : json :=
  match x with
  | Int z => JNum (Whole z)
  | Frac m k => JNum (Part m k)
  | NaN | Infinity _ => JNull
  end.

(** The number that [JSON.parse] reads from a number literal of the text:
    the double nearest to it, so that the literals [1] and
    [1.0000000000000000001] are read as one number, and so are
    [9007199254740992] and [9007199254740993].  A literal beyond the range
    of the finite doubles is not in the model. *)
Definition literal (s : string) : option finite :=
  match StringToNumber s with
  | Int z => Some (Whole z)
  | Frac m k => Some (Part m k)
  | NaN | Infinity _ => None
  end.

(** A JavaScript value the program handles: a JSON value, or [undefined]
    ([None]), which reading a missing property yields. *)
Abbreviation value := (option json).

(** The exceptions that the operations on these values raise; each is a
    [TypeError]. *)
Inductive exception : Type :=
  | ReadOfNull (prop : string)        (* Cannot read properties of null *)
  | NotPrimitive                      (* Cannot convert object to primitive value *)
  | WriteToPrimitive (prop : string)  (* Cannot create property on a primitive *)
  | WriteToUndefined (prop : string). (* Cannot set properties of undefined *)

Inductive result (A : Type) : Type :=
  | Ok (a : A)
  | Throw (e : exception).
Arguments Ok {A} a.
Arguments Throw {A} e.

#[global] Instance result_ret : MRet result := λ A a, Ok a.
#[global] Instance result_bind : MBind result := λ A B f r,
  match r with
  | Ok a => f a
  | Throw e => Throw e
  end.

(** [v.k] for a property name [k] that no prototype defines, as are all the
    names the program reads: [null] has no properties, an object has its own,
    and an array, string, number or boolean has none of that name. *)
Definition Get (v : json) (k : string) : result value :=
  match v with
  | JNull => Throw (ReadOfNull k)
  | JObj m => Ok (m !! k)
  | _ => Ok None
  end.

(** [v.k = x] in strict mode. *)
Definition Put (v : json) (k : string) (x : json) : result json :=
  match v with
  | JNull => Throw (ReadOfNull k)
  | JObj m => Ok (JObj (<[k := x]> m))
  | JArr l => Ok (JArr l)  (* a named property of an array is not serialised *)
  | _ => Throw (WriteToPrimitive k)
  end.

(** [String(v)].  An array joins the strings of its elements, [null] counting
    as empty.  An object parsed from JSON inherits [Object.prototype.toString]
    unless it has a property of that name of its own, which is then not
    callable: the conversion finds no method and throws. *)
Fixpoint ToString_json (v : json) : result string :=
  match v with
  | JNull => Ok "null"
  | JBool b => Ok (if b then "true" else "false")
  | JNum x => Ok (toString (ofFinite x))
  | JStr s => Ok s
  | JArr l =>
      ss ← (fix elements (l : list json) : result (list string) :=
              match l with
              | [] => Ok []
              | e :: r =>
                  s ← match e with JNull => Ok "" | _ => ToString_json e end;
                  ss ← elements r;
                  Ok (s :: ss)
              end) l;
      Ok (join "," ss)
  | JObj m => if decide (is_Some (m !! "toString")) then Throw NotPrimitive
              else Ok "[object Object]"
  end.

Definition ToString (v : value) : result string :=
  match v with
  | None => Ok "undefined"
  | Some j => ToString_json j
  end.

(** [Number(v)]. *)
Definition ToNumber (v : value) : result number :=
  match v with
  | None => Ok NaN
  | Some JNull => Ok (Int 0)
  | Some (JBool b) => Ok (Int (if b then 1 else 0))
  | Some (JNum x) => Ok (ofFinite x)
  | Some (JStr s) => Ok (StringToNumber s)
  | Some (JArr l) => s ← ToString_json (JArr l); Ok (StringToNumber s)
  | Some (JObj m) => if decide (is_Some (m !! "toString")) then Throw NotPrimitive
                     else Ok NaN
  end.

(** Truthiness. *)
Definition ToBoolean (v : value) : bool :=
  match v with
  | None | Some JNull => false
  | Some (JBool b) => b
  | Some (JNum x) => negb (bool_decide (x = Whole 0))
  | Some (JStr s) => negb (bool_decide (s = ""))
  | Some (JArr _) | Some (JObj _) => true
  end.

(** [v === s] for a string [s]. *)
Definition equalsString (v : value) (s : string) : bool :=
  match v with
  | Some (JStr s') => bool_decide (s' = s)
  | _ => false
  end.

(** [Array.prototype.findIndex] and [filter] with a callback that may throw:
    elements are visited in order, and [findIndex] stops at the first hit. *)
Fixpoint findIndex {A} (p : A → result bool) (l : list A) : result (option nat) :=
  match l with
  | [] => Ok None
  | x :: r =>
      b ← p x;
      if b : bool then Ok (Some 0)
      else i ← findIndex p r; Ok (option_map S i)
  end.

Fixpoint filterM {A} (p : A → result bool) (l : list A) : result (list A) :=
  match l with
  | [] => Ok []
  | x :: r =>
      b ← p x;
      r' ← filterM p r;
      Ok (if b : bool then x :: r' else r')
  end.

End Json.

(** ** The process and its environment *)
Module Proc.
Import Text Num Json.

(** The text of the data file, as far as [loadTasks] tells texts apart:
    blank ([raw.trim()] is empty), text that is not blank and that
    [JSON.parse] rejects with the given message, or the text of a JSON value,
    given by the value that [JSON.parse] returns for it: a number of that
    value is the double nearest to its literal in the text ([Json.literal]),
    and the literals are taken to lie within the range of the finite
    doubles.
    [JSON.stringify] writes a text of the last kind: the values the program
    saves were parsed from JSON or are strings and integers, and those are
    read back as written.  A file that exists and cannot be read behaves as
    one whose text is rejected, with the message of the read error. *)
Inductive content : Type :=
  | Blank
  | Malformed (msg : string)
  | Document (v : json).

(** The data file [DATA_FILE]: absent ([None]) or present with some content;
    and whether [fs.writeFileSync] on it fails, with which message. *)
Record disk : Type := Disk {
  file : option content;
  writeError : option string;
}.

(** The lines the program prints, by the statement that prints them. *)
Inductive message : Type :=
  | WarnLoad (err : string)            (* 'Warning: ... Loi:', err.message *)
  | ErrSave (err : string)             (* 'Error: ... ghi file tasks:', err.message *)
  | UsageAdd                           (* 'Usage: add <name> [description...]' *)
  | UsageUpdate                        (* 'Usage: update <id> <description...>' *)
  | UsageDelete                        (* 'Usage: delete <id>' *)
  | UsageMark (command : string)       (* `Usage: ${command} <id>` *)
  | UsageList                          (* 'Usage: list [todo|in-progress|done]' *)
  | InvalidId                          (* 'Error: id ...' (the id is not valid) *)
  | NotFound (id : number)             (* `Error: ... task ... id ${id}` *)
  | Added (id : number)                (* `Task added successfully (ID: ${id})` *)
  | Updated (id : number)              (* `Task ${id} updated` *)
  | Deleted (id : number)              (* `Task ${id} deleted` *)
  | Marked (id : number) (status : string) (* `Task ${id} marked as ${newStatus}` *)
  | NothingToShow                      (* the empty-list notice *)
  | TaskLine (id name : string) (desc : option string)
             (status createdAt updatedAt : string)
                                       (* the line of [printTask] *)
  | Help                               (* the text of [printHelp] *)
  | UnknownCommand (command : string)  (* 'Unknown command:', command *)
  | Uncaught (e : exception).          (* the report of an uncaught exception *)

(** What an invocation does to the outside, in order. *)
Inductive effect : Type :=
  | Stdout (m : message)
  | Stderr (m : message)
  | Write (v : json).     (* DATA_FILE overwritten with JSON.stringify(v, null, 2) *)

(** [clock] is the time value that [new Date()] reads; no handler reads it
    more than once. *)
Record state : Type := State {
  fs : disk;
  clock : Z;
  trace : list effect;
}.

(** A step either returns, or ends the process ([process.exit]), or throws. *)
Inductive outcome (A : Type) : Type :=
  | Return (a : A)
  | Exit (code : Z)
  | Raise (e : exception).
Arguments Return {A} a.
Arguments Exit {A} code.
Arguments Raise {A} e.

Definition proc (A : Type) : Type := state → outcome A * state.

#[global] Instance proc_ret : MRet proc := λ A a st, (Return a, st).
#[global] Instance proc_bind : MBind proc := λ A B f c st,
  match c st with
  | (Return a, st') => f a st'
  | (Exit code, st') => (Exit code, st')
  | (Raise e, st') => (Raise e, st')
  end.

Definition lift {A} (r : result A) : proc A := λ st,
  match r with
  | Ok a => (Return a, st)
  | Throw e => (Raise e, st)
  end.

Definition emit (e : effect) : proc unit := λ st,
  (Return (), State (fs st) (clock st) (trace st ++ [e])).

Definition console_log (m : message) : proc unit := emit (Stdout m).
Definition console_error (m : message) : proc unit := emit (Stderr m).
Definition process_exit {A} (code : Z) : proc A := λ st, (Exit code, st).

(** [new Date().toISOString()] *)
Definition Date_now : proc string := λ st, (Return (toISOString (clock st)), st).

(** [fs.existsSync(DATA_FILE)] *)
Definition fs_existsSync : proc bool := λ st,
  (Return (bool_decide (is_Some (file (fs st)))), st).

(** [fs.readFileSync(DATA_FILE, 'utf8')]; it is only called on a file that
    exists. *)
Definition fs_readFileSync : proc content := λ st,
  (Return (default Blank (file (fs st))), st).

(** [!raw.trim()] *)
Definition isBlank (raw : content) : bool :=
  match raw with Blank => true | _ => false end.

(** [JSON.parse(raw)]: the value, or the message of the [SyntaxError]. *)
Definition JSON_parse (raw : content) : string + json :=
  match raw with
  | Blank => inl "Unexpected end of JSON input"
  | Malformed msg => inl msg
  | Document v => inr v
  end.

(** [fs.writeFileSync(DATA_FILE, JSON.stringify(v, null, 2), 'utf8')]: the
    message of the error when the write fails, which leaves the file as it
    was. *)
Definition fs_writeFileSync (v : json) : proc (option string) := λ st,
  match writeError (fs st) with
  | Some msg => (Return (Some msg), st)
  | None =>
      (Return None,
       State (Disk (Some (Document v)) None) (clock st) (trace st ++ [Write v]))
  end.

Fixpoint forEach {A} (f : A → proc unit) (l : list A) : proc unit :=
  match l with
  | [] => mret ()
  | x :: r => f x;; forEach f r
  end.

End Proc.

(** ** The program: [src/task-cli.js] *)
Module TaskCli.
Import Text Num Json Proc.

Definition loadTasks : proc (list json) :=
  present ← fs_existsSync;
  if negb present then mret []
  else
    raw ← fs_readFileSync;
    if isBlank raw then mret []
    else match JSON_parse raw with
         | inr (JArr parsed) => mret parsed
         | inr _ => mret []
         | inl msg => console_error (WarnLoad msg);; mret []
         end.

Definition saveTasks (tasks : list json) : proc unit :=
  err ← fs_writeFileSync (JArr tasks);
  match err with
  | None => mret ()
  | Some msg => console_error (ErrSave msg);; process_exit 1
  end.

(** [Math.max(...ids)] *)
Definition Math_max (ids : list Z) : number :=
  match ids with
  | [] => Infinity true
  | z :: r => Int (foldl Z.max z r)
  end.

(** [x + 1].  [getNextId] adds 1 to an integer, the largest id: to an
    integer the model adds exactly, which is what the addition of doubles
    does while [x] is below 2^53, on the ids of a collection with
    [Notions.safeIds], and on those of a session begun on a fresh
    installation up to its 2^53th addition. *)
Definition plus1 (x : number) : number :=
  match x with
  | Int z => Int (z + 1)
  | Frac m k =>
      withSign (m + 10 ^ Z.pos k <? 0)%Z
        (nearestDouble (Z.abs (m + 10 ^ Z.pos k)) (10 ^ Z.pos k))
  | NaN | Infinity _ => x
  end.

(** [Number(t.id)] *)
Definition idOf (t : json) : result number :=
  v ← Get t "id"; ToNumber v.

Definition getNextId (tasks : list json) : result number :=
  ns ← mapM idOf tasks;
  let ids := omap positiveInteger ns in
  mret (if bool_decide (length ids = 0) then Int 1 else plus1 (Math_max ids)).

Definition printTask (t : json) : proc unit :=
  d ← lift (Get t "description");
  desc ← (if ToBoolean d then s ← lift (ToString d); mret (Some s) else mret None);
  id ← lift (Get t "id" ≫= ToString);
  name ← lift (Get t "name" ≫= ToString);
  status ← lift (Get t "status" ≫= ToString);
  createdAt ← lift (Get t "createdAt" ≫= ToString);
  updatedAt ← lift (Get t "updatedAt" ≫= ToString);
  console_log (TaskLine id name desc status createdAt updatedAt).

(** The task that [cmdAdd] builds. *)
Definition newTask (id : number) (name description now : string) : json :=
  JObj (list_to_map
    [("id", ofNumber id); ("name", JStr name); ("description", JStr description);
     ("status", JStr "todo"); ("createdAt", JStr now); ("updatedAt", JStr now)]).

Definition cmdAdd (args : list string) : proc unit :=
  match args with
  | [] => console_error UsageAdd;; process_exit 1
  | name :: rest =>
      let description := if bool_decide (1 < length args) then join " " rest else "" in
      tasks ← loadTasks;
      id ← lift (getNextId tasks);
      now ← Date_now;
      let task := newTask id name description now in
      let tasks := tasks ++ [task] in
      saveTasks tasks;;
      console_log (Added id)
  end.

(** [tasks.findIndex(t => Number(t.id) === id)] *)
Definition findById (id : number) (tasks : list json) : result (option nat) :=
  findIndex (λ t, n ← idOf t; mret (strictEquals n id)) tasks.

(** [tasks[idx].k = x] *)
Definition assign (tasks : list json) (idx : nat) (k : string) (x : json)
  : result (list json) :=
  match tasks !! idx with
  | Some t => t' ← Put t k x; mret (<[idx := t']> tasks)
  | None => Throw (WriteToUndefined k)
  end.

Definition cmdUpdate (args : list string) : proc unit :=
  match args with
  | arg0 :: _ :: _ =>
      let id := parseInt arg0 10 in
      if isNaN id then console_error InvalidId;; process_exit 1
      else
        let newDesc := join " " (tail args) in
        tasks ← loadTasks;
        idx ← lift (findById id tasks);
        match idx with
        | None => console_error (NotFound id);; process_exit 1
        | Some idx =>
            tasks ← lift (assign tasks idx "description" (JStr newDesc));
            now ← Date_now;
            tasks ← lift (assign tasks idx "updatedAt" (JStr now));
            saveTasks tasks;;
            console_log (Updated id)
        end
  | _ => console_error UsageUpdate;; process_exit 1
  end.

Definition cmdDelete (args : list string) : proc unit :=
  match args with
  | [] => console_error UsageDelete;; process_exit 1
  | arg0 :: _ =>
      let id := parseInt arg0 10 in
      if isNaN id then console_error InvalidId;; process_exit 1
      else
        tasks ← loadTasks;
        let beforeLen := length tasks in
        tasks ← lift (filterM (λ t, n ← idOf t; mret (negb (strictEquals n id))) tasks);
        if bool_decide (length tasks = beforeLen)
        then console_error (NotFound id);; process_exit 1
        else saveTasks tasks;; console_log (Deleted id)
  end.

Definition cmdMark (args : list string) (newStatus : string) : proc unit :=
  match args with
  | [] =>
      console_error
        (UsageMark (if bool_decide (newStatus = "done") then "mark-done"
                    else "mark-in-progress"));;
      process_exit 1
  | arg0 :: _ =>
      let id := parseInt arg0 10 in
      if isNaN id then console_error InvalidId;; process_exit 1
      else
        tasks ← loadTasks;
        idx ← lift (findById id tasks);
        match idx with
        | None => console_error (NotFound id);; process_exit 1
        | Some idx =>
            tasks ← lift (assign tasks idx "status" (JStr newStatus));
            now ← Date_now;
            tasks ← lift (assign tasks idx "updatedAt" (JStr now));
            saveTasks tasks;;
            console_log (Marked id newStatus)
        end
  end.

Definition allowed : list string := ["todo"; "in-progress"; "done"].

Definition cmdList (args : list string) : proc unit :=
  let filter : option string := head args in   (* [args[0]], or [null] *)
  let given := bool_decide (is_Some filter ∧ filter ≠ Some "") in  (* is it truthy *)
  let filter := default "" filter in
  if given && negb (bool_decide (filter ∈ allowed))
  then console_error UsageList;; process_exit 1
  else
    tasks ← loadTasks;
    toPrint ← (if given
               then lift (filterM (λ t, s ← Get t "status"; mret (equalsString s filter)) tasks)
               else mret tasks);
    if bool_decide (length toPrint = 0) then console_log NothingToShow
    else forEach printTask toPrint.

Definition printHelp : proc unit := console_log Help.

Definition main (argv : list string) : proc unit :=
  let command := head argv in
  let args := tail argv in
  if decide (command = Some "add") then cmdAdd args
  else if decide (command = Some "update") then cmdUpdate args
  else if decide (command = Some "delete") then cmdDelete args
  else if decide (command = Some "mark-in-progress") then cmdMark args "in-progress"
  else if decide (command = Some "mark-done") then cmdMark args "done"
  else if decide (command = Some "list") then cmdList args
  else if decide (command = Some "help" ∨ command = None ∨ command = Some "")
  then printHelp
  else console_error (UnknownCommand (default "" command));;
       printHelp;;
       process_exit 1.

(** One invocation of the program: [node task-cli.js argv...] at time [now]
    on the data file [d].  The script calls [main()] at top level; the exit
    code is 0 when it returns, the argument of [process.exit] when that is
    called, and 1 when an exception escapes, which is then reported on
    standard error. *)
Record completion : Type := Completion {
  exitCode : Z;
  output : list effect;
  after : disk;
}.

Definition run (argv : list string) (now : Z) (d : disk) : completion :=
  match main argv (State d now []) with
  | (Return _, st) => Completion 0 (trace st) (fs st)
  | (Exit code, st) => Completion code (trace st) (fs st)
  | (Raise e, st) => Completion 1 (trace st ++ [Stderr (Uncaught e)]) (fs st)
  end.

(** A series of invocations, each on the file the previous one left. *)
Record invocation : Type := Invoke {
  argv : list string;
  time : Z;
}.

Fixpoint session (invs : list invocation) (d : disk) : list completion :=
  match invs with
  | [] => []
  | i :: r => let c := run (argv i) (time i) d in c :: session r (after c)
  end.

Definition finally (invs : list invocation) (d : disk) : disk :=
  foldl (λ d i, after (run (argv i) (time i) d)) d invs.

(** The collection an invocation would load from [d] (without the warning). *)
Definition stored (d : disk) : list json :=
  match file d with
  | Some (Document (JArr l)) => l
  | _ => []
  end.

(** A fresh installation: no data file, and writes succeed. *)
Definition fresh : disk := Disk None None.

End TaskCli.

(** * Notions for the properties

    The vocabulary in which the properties below are stated: what the
    handlers come to once loading and saving are factored out, how a task is
    addressed by an id, what an invocation can do to the collection, and the
    invariants of the collection; then the data of the examples. *)
Module Notions.
Import Text Num Json Proc TaskCli.

(** The warning [loadTasks] prints on [d], if any. *)
Definition loadWarning (d : disk) : list effect :=
  match file d with
  | Some (Malformed msg) => [Stderr (WarnLoad msg)]
  | _ => []
  end.

(** An invocation that loaded [d] and then stopped on the error [m]. *)
Definition failed (d : disk) (m : message) : completion :=
  Completion 1 (loadWarning d ++ [Stderr m]) d.

(** An invocation that loaded [d], went on to save [tasks] and, the write
    done, confirmed with [m]. *)
Definition saved (d : disk) (tasks : list json) (m : message) : completion :=
  match writeError d with
  | Some err => failed d (ErrSave err)
  | None =>
      Completion 0 (loadWarning d ++ [Write (JArr tasks); Stdout m])
                 (Disk (Some (Document (JArr tasks))) None)
  end.

(** The two assignments that [cmdUpdate] and [cmdMark] make to [tasks[idx]]. *)
Definition amend (tasks : list json) (idx : nat) (k v : string) (now : Z)
  : result (list json) :=
  tasks ← assign tasks idx k (JStr v);
  assign tasks idx "updatedAt" (JStr (toISOString now)).

(** The common part of [cmdUpdate] and [cmdMark], from [loadTasks] on. *)
Definition touch (id : number) (k v : string) (ok : message) (now : Z) (d : disk)
  : completion :=
  match findById id (stored d) with
  | Throw e => failed d (Uncaught e)
  | Ok None => failed d (NotFound id)
  | Ok (Some idx) =>
      match amend (stored d) idx k v now with
      | Throw e => failed d (Uncaught e)
      | Ok tasks => saved d tasks ok
      end
  end.

(** [tasks.filter(t => Number(t.id) !== id)] *)
Definition dropById (id : number) (tasks : list json) : result (list json) :=
  filterM (λ t, n ← idOf t; mret (negb (strictEquals n id))) tasks.

(** [printTask] without the console: the line, or the exception. *)
Definition taskLine (t : json) : result message :=
  d ← Get t "description";
  desc ← (if ToBoolean d then s ← ToString d; mret (Some s) else mret None);
  id ← Get t "id" ≫= ToString;
  name ← Get t "name" ≫= ToString;
  status ← Get t "status" ≫= ToString;
  createdAt ← Get t "createdAt" ≫= ToString;
  updatedAt ← Get t "updatedAt" ≫= ToString;
  mret (TaskLine id name desc status createdAt updatedAt).

(** [toPrint.forEach(printTask)]: the lines printed, and the exception that
    cut the loop short, if any. *)
Fixpoint listing (l : list json) : list effect * option exception :=
  match l with
  | [] => ([], None)
  | t :: r =>
      match taskLine t with
      | Ok m => let '(out, e) := listing r in (Stdout m :: out, e)
      | Throw e => ([], Some e)
      end
  end.

(** [tasks.filter(t => t.status === filter)] *)
Definition withStatus (filter : string) (tasks : list json) : result (list json) :=
  filterM (λ t, s ← Get t "status"; mret (equalsString s filter)) tasks.

(** The callback's verdict on [x]; an exception is no verdict. *)
Definition holds {A} (p : A → result bool) (x : A) : bool :=
  match p x with Ok b => b | Throw _ => false end.

(** The callback of [findById]: [Number(t.id) === id]. *)
Definition sameId (id : number) (t : json) : result bool :=
  n ← idOf t; mret (strictEquals n id).

(** [t] is one of the tasks that the id [id] addresses. *)
Definition matches (id : number) (t : json) : bool := holds (sameId id) t.

(** The two assignments of [cmdUpdate] and [cmdMark] on an object. *)
Definition amended (m : gmap string json) (k v : string) (now : Z) : json :=
  JObj (<["updatedAt" := JStr (toISOString now)]> (<[k := JStr v]> m)).

(** The values an invocation wrote to the data file, in order. *)
Definition writes (out : list effect) : list json :=
  omap (λ e, match e with Write v => Some v | _ => None end) out.

(** How the invocation of a handler that saves can end: turned down before
    the file is read, stopped after loading, or carried through to the save
    (which can itself still fail). *)
Inductive verdict (d : disk) : completion → Prop :=
  | Rejected m : verdict d (Completion 1 [Stderr m] d)
  | Stopped m : verdict d (failed d m)
  | Carried tasks m : verdict d (saved d tasks m).

(** The handlers that save. *)
Definition mutating : list string :=
  ["add"; "update"; "delete"; "mark-in-progress"; "mark-done"].

(** Decimal digits, strings of decimal digits, and strings that begin with
    one. *)
Definition isDigit (c : ascii) : bool := bool_decide (is_Some (radixDigit 10 c)).

Fixpoint allDigits (s : string) : bool :=
  match s with
  | EmptyString => true
  | String c r => isDigit c && allDigits r
  end.

Definition startsWithDigit (s : string) : bool :=
  match s with
  | String c _ => isDigit c
  | EmptyString => false
  end.

(** The handlers that take a task id as their first argument. *)
Definition addressing : list string :=
  ["update"; "delete"; "mark-in-progress"; "mark-done"].

(** The field that a rewriting handler sets besides [updatedAt], and the
    value it gives it. *)
Definition target (command : string) (rest : list string) : option (string * string) :=
  if decide (command = "update") then
    match rest with
    | [] => None
    | _ => Some ("description", join " " rest)
    end
  else if decide (command = "mark-in-progress") then Some ("status", "in-progress")
  else if decide (command = "mark-done") then Some ("status", "done")
  else None.


(** The changes that an invocation [argv] at time [now] can make to the
    collection [l]: append a task, remove the tasks with an id, rewrite the
    first task with an id. *)
Inductive change (argv : list string) (now : Z) (l : list json) : list json → Prop :=
  | Appended id name rest :
      argv = "add" :: name :: rest →
      getNextId l = Ok id →
      change argv now l
        (l ++ [newTask id name (if bool_decide (1 < length (name :: rest))
                                then join " " rest else "")
                       (toISOString now)])
  | Removed arg0 rest id :
      argv = "delete" :: arg0 :: rest →
      parseInt arg0 10 = id →
      Forall (λ t, ∃ x, idOf t = Ok x) l →
      change argv now l (List.filter (λ t, negb (matches id t)) l)
  | Rewritten command arg0 rest id i m k v :
      argv = command :: arg0 :: rest →
      target command rest = Some (k, v) →
      parseInt arg0 10 = id →
      findById id l = Ok (Some i) →
      l !! i = Some (JObj m) →
      change argv now l (<[i := amended m k v now]> l).

(** An invocation either leaves the data file as it is, or overwrites it
    with a changed collection. *)
Definition effectOn (argv : list string) (now : Z) (d d' : disk) : Prop :=
  d' = d ∨
  writeError d = None ∧
  ∃ l', change argv now (stored d) l' ∧ d' = Disk (Some (Document (JArr l'))) None.

(** [t] carries the integer [z] as its id. *)
Definition hasId (t : json) (z : Z) : Prop :=
  Get t "id" = Ok (Some (JNum (Whole z))).

(** The id that [getNextId] computes when the stored ids are [zs]. *)
Definition nextId (zs : list Z) : Z :=
  match zs with
  | [] => 1
  | z :: r => foldl Z.max z r + 1
  end.

(** Positive integer ids, strictly increasing in stored order. *)
Definition numbered (l : list json) (zs : list Z) : Prop :=
  Forall2 hasId l zs ∧ Forall (λ z, 0 < z)%Z zs ∧ StronglySorted Z.lt zs.

(** The data file of a session that began on a fresh installation: writes
    succeed on it and loading it prints no warning. *)
Definition plain (d : disk) : Prop := writeError d = None ∧ loadWarning d = [].

(** The invariant of the ids, on the data file. *)
Definition wellNumbered (d : disk) : Prop := plain d ∧ ∃ zs, numbered (stored d) zs.

(** The ids that the adds of a session announced, in order. *)
Definition assignedIds (cs : list completion) : list number :=
  c ← cs;
  omap (λ e, match e with Stdout (Added id) => Some id | _ => None end) (output c).

(** [t.status] is one of the three allowed values. *)
Definition validStatus (t : json) : Prop :=
  ∃ s, Get t "status" = Ok (Some (JStr s)) ∧ s ∈ allowed.

(** [s <= t] on strings, as the host language compares them: code unit by
    code unit.  On the timestamps that [toISOString] prints for the years 0
    to 9999 this is the order of time ([Calendar.toISOString_monotone]). *)
Definition lessOrEqual (s t : string) : Prop := String.leb s t = true.

(** [t.updatedAt >= t.createdAt] *)
Definition timeOrdered (t : json) : Prop :=
  ∃ c u, Get t "createdAt" = Ok (Some (JStr c)) ∧
         Get t "updatedAt" = Ok (Some (JStr u)) ∧ lessOrEqual c u.

(** [t] was created, and last updated, no later than [T]. *)
Definition notAfter (T : string) (t : json) : Prop :=
  ∃ c u, Get t "createdAt" = Ok (Some (JStr c)) ∧
         Get t "updatedAt" = Ok (Some (JStr u)) ∧
         lessOrEqual c u ∧ lessOrEqual u T.

(** The timestamp that an invocation reads from the clock. *)
Definition stamp (i : invocation) : string := toISOString (time i).

(** The clock never steps back between the invocations of the session. *)
Definition steady (invs : list invocation) : Prop :=
  Sorted lessOrEqual (stamp <$> invs).

(** The invariant of ids and statuses, on the data file. *)
Definition wellFormed (d : disk) : Prop :=
  wellNumbered d ∧ Forall validStatus (stored d).

(** ** Command lines, outcomes and listings

    The vocabulary of the properties of the command line, of the outcome of
    an invocation and of what [list] prints. *)

(** The command names that [main] knows; the empty one stands for help. *)
Definition commands : list string :=
  ["add"; "update"; "delete"; "mark-in-progress"; "mark-done"; "list"; "help"; ""].

(** The handlers that look at [args[0]] and at nothing after it. *)
Definition unary : list string := ["delete"; "mark-in-progress"; "mark-done"; "list"].

(** [t.status === s] *)
Definition hasStatus (s : string) (t : json) : bool :=
  holds (λ t, v ← Get t "status"; mret (equalsString v s)) t.

(** The integer ids among [l] are below 2^53, where the successor of a
    double is still exact. *)
Definition safeIds (l : list json) : Prop :=
  Forall (λ t, ∀ k, idOf t = Ok (Int k) → (k < 2 ^ 53)%Z) l.


(** An error line: a line on standard error other than the warning of
    [loadTasks]. *)
Definition isError (e : effect) : bool :=
  match e with
  | Stderr (WarnLoad _) => false
  | Stderr _ => true
  | _ => false
  end.

(** A line on standard output. *)
Definition isLine (e : effect) : bool :=
  match e with Stdout _ => true | _ => false end.

(** The lines that confirm a change. *)
Definition confirms (m : message) : bool :=
  match m with
  | Added _ | Updated _ | Deleted _ | Marked _ _ => true
  | _ => false
  end.

(** What an invocation sets out to do, given the command line, the time and
    the content of the data file, before it is known whether the file can be
    written: end on an error before the file is read (the help text after
    it, for an unknown command); print the help text; load, print lines and
    end on an error; load and print lines; load, save and confirm. *)
Inductive plan : Type :=
  | Refuse (m : message) (help : bool)
  | Tell
  | Stop (lines : list effect) (m : message)
  | Display (lines : list effect)
  | Save (tasks : list json) (m : message).

(** The invocation that follows the plan [p] on the data file [d]. *)
Definition carry (p : plan) (d : disk) : completion :=
  match p with
  | Refuse m help => Completion 1 (Stderr m :: if help then [Stdout Help] else []) d
  | Tell => Completion 0 [Stdout Help] d
  | Stop lines m => Completion 1 (loadWarning d ++ lines ++ [Stderr m]) d
  | Display lines => Completion 0 (loadWarning d ++ lines) d
  | Save tasks m => saved d tasks m
  end.

(** What the handlers see to in their plans: an invocation ends with exit
    code 1 on an error line only, the lines it prints after loading go to
    standard output, and what follows a save is a confirmation. *)
Definition sound (p : plan) : Prop :=
  match p with
  | Refuse m _ => isError (Stderr m) = true
  | Tell => True
  | Stop lines m => forallb isLine lines = true ∧ isError (Stderr m) = true
  | Display lines => forallb isLine lines = true
  | Save _ m => confirms m = true
  end.


(** A task of which every field holds a string, a number or [null], so
    that [printTask] can print it. *)
Definition printable (t : json) : Prop :=
  ∃ m, t = JObj m ∧
       ∀ k v, m !! k = Some v → (∃ s, v = JStr s) ∨ (∃ x, v = JNum x) ∨ v = JNull.

(** The line of [list] for a task with the id [z]. *)
Definition lineOf (e : effect) (z : Z) : Prop :=
  ∃ name desc status createdAt updatedAt,
    e = Stdout (TaskLine (toString (Int z)) name desc status createdAt updatedAt).

(** ** The calendar

    What is needed to compare the timestamps of two times. *)

(** [P] on every integer from [lo] up to [lo + 2^bits], excluded. *)
Fixpoint allFrom (P : Z → bool) (lo : Z) (bits : nat) : bool :=
  match bits with
  | O => P lo
  | S b => allFrom P lo b && allFrom P (lo + 2 ^ Z.of_nat b) b
  end.

(** The field [pad n] is well behaved below [N]: it has [n] characters and
    grows with the number. *)
Definition padOk (n : nat) (N z : Z) : bool :=
  (N <=? z)%Z ||
  (Nat.eqb (String.length (pad n z)) n &&
   ((N <=? z + 1)%Z || String.ltb (pad n z) (pad n (z + 1)))).

Definition padsOk (n : nat) (N : Z) (bits : nat) : Prop :=
  allFrom (padOk n N) 0 bits = true ∧ (N ≤ 2 ^ Z.of_nat bits)%Z.

(** The date of a day number as one integer, [yyyymmdd]. *)
Definition dateKey (days : Z) : Z :=
  let '(y, m, d) := civilFromDays days in (y * 10000 + m * 100 + d)%Z.

(** The date of a day of the era that begins on 0000-03-01. *)
Definition ofEra (doe : Z) : Z * Z * Z := civilFromDays (doe - 719468).

Definition eraKey (doe : Z) : Z :=
  let '(y, m, d) := ofEra doe in (y * 10000 + m * 100 + d)%Z.

(** What is checked of each day of an era: the month and the day of the
    month are in range, and the next day has a later date. *)
Definition eraOk (doe : Z) : bool :=
  (146097 <=? doe)%Z ||
  (let '(y, m, d) := ofEra doe in
   ((0 <=? y) && (y <=? 400) && (1 <=? m) && (m <=? 12) && (1 <=? d) && (d <=? 31))%Z &&
   ((146096 <=? doe)%Z || (y * 10000 + m * 100 + d <? eraKey (doe + 1))%Z)).

(** The times whose year has four digits. *)
Definition inYears (ms : Z) : Prop :=
  (-62167219200000 ≤ ms ≤ 253402300799999)%Z.

(** ** Data for the examples *)

(** A store for examples: one task, added at 2023-11-14T22:13:20.000Z. *)
Definition oneTask : disk := after (run ["add"; "Buy milk"] 1700000000000 fresh).

(** A store for examples: the tasks of scenario 2, "Task A" then "Task B". *)
Definition twoTasks : disk :=
  finally [Invoke ["add"; "Task A"] 1700000000000;
           Invoke ["add"; "Task B"; "desc"] 1700000060000] fresh.


(** A session for examples: two adds, the second task deleted, a third add. *)
Definition reuseAfterDelete : list invocation :=
  [Invoke ["add"; "Task A"] 1700000000000;
   Invoke ["add"; "Task B"] 1700000060000;
   Invoke ["delete"; "2"] 1700000120000;
   Invoke ["add"; "Task C"] 1700000180000].

(** A session for examples: a task is added, taken up the next minute and
    done the minute after. *)
Definition steadySession : list invocation :=
  [Invoke ["add"; "Buy milk"] 1700000000000;
   Invoke ["mark-in-progress"; "1"] 1700000060000;
   Invoke ["mark-done"; "1"] 1700000120000].

(** A session for examples: the clock is set back by a minute between the
    add and the mark-done. *)
Definition clockSetBack : list invocation :=
  [Invoke ["add"; "Buy milk"] 1700000060000;
   Invoke ["mark-done"; "1"] 1700000000000].

(** A data file that holds an object where the array of tasks should be. *)
Definition wrapped : disk :=
  Disk (Some (Document (JObj {[ "tasks" := JArr (stored twoTasks) ]}))) None.

(** A data file with one task, whose id is 2^53. *)
Definition largeId : disk :=
  Disk (Some (Document (JArr
    [JObj {[ "id" := JNum (Whole 9007199254740992); "name" := JStr "a";
             "description" := JStr "" ]}]))) None.

(** A collection in which the id 1 is also written with more digits than a
    double holds. *)
Definition roundedIds : list json :=
  [JObj {[ "id" := JStr "1.0000000000000000001"; "name" := JStr "a" ]};
   JObj {[ "id" := JNum (Whole 1); "name" := JStr "b" ]}].

(** A collection edited by hand: ids given as a number, as a string, left
    out, and negative. *)
Definition handEdited : list json :=
  [JObj {[ "id" := JNum (Whole 4); "name" := JStr "a" ]};
   JObj {[ "id" := JStr "7"; "name" := JStr "b" ]};
   JObj {[ "name" := JStr "c" ]};
   JObj {[ "id" := JNum (Whole (-9)); "name" := JStr "d" ]}].

End Notions.

(** * Properties *)

(** ** What an invocation does, handler by handler

    Each handler is straight-line code over the process monad; this section
    computes, once and for all, the completion of every form of invocation as
    a function of the data file. *)
Module Handlers.
Import Text Num Json Proc TaskCli Notions.

Lemma loadTasks_eq d now tr :
  loadTasks (State d now tr) = (Return (stored d), State d now (tr ++ loadWarning d)).
Proof.
  destruct d as [[[ | msg | v] | ] w]; unfold loadWarning, stored; cbn;
    rewrite ?app_nil_r; try reflexivity.
  destruct v; cbn; rewrite ?app_nil_r; reflexivity.
Qed.

Lemma saveTasks_eq tasks d now tr :
  saveTasks tasks (State d now tr) =
    match writeError d with
    | Some err => (Exit 1, State d now (tr ++ [Stderr (ErrSave err)]))
    | None => (Return (), State (Disk (Some (Document (JArr tasks))) None) now
                                (tr ++ [Write (JArr tasks)]))
    end.
Proof. destruct d as [f [err|]]; reflexivity. Qed.

Lemma bind_eq {A B} (c : proc A) (f : A → proc B) st :
  (c ≫= f) st = match c st with
                | (Return a, st') => f a st'
                | (Exit code, st') => (Exit code, st')
                | (Raise e, st') => (Raise e, st')
                end.
Proof. reflexivity. Qed.

Lemma lift_eq {A} (r : result A) st :
  lift r st = match r with Ok a => (Return a, st) | Throw e => (Raise e, st) end.
Proof. reflexivity. Qed.

Lemma Date_now_eq st : Date_now st = (Return (toISOString (clock st)), st).
Proof. reflexivity. Qed.

Lemma console_log_eq m st :
  console_log m st = (Return (), State (fs st) (clock st) (trace st ++ [Stdout m])).
Proof. reflexivity. Qed.

Lemma console_error_eq m st :
  console_error m st = (Return (), State (fs st) (clock st) (trace st ++ [Stderr m])).
Proof. reflexivity. Qed.

Lemma process_exit_eq {A} code st : process_exit (A:=A) code st = (Exit code, st).
Proof. reflexivity. Qed.

Lemma mret_eq {A} (a : A) (st : state) : mret (M:=proc) a st = (Return a, st).
Proof. reflexivity. Qed.

(** Rewrites a handler applied to a state into its result, one bind at a
    time. *)
Ltac step :=
  repeat first
    [ rewrite bind_eq | rewrite loadTasks_eq | rewrite saveTasks_eq
    | rewrite lift_eq | rewrite Date_now_eq | rewrite console_log_eq
    | rewrite console_error_eq | rewrite process_exit_eq | rewrite mret_eq
    | progress cbn [trace fs clock app] ].

Lemma run_add_nothing now d :
  run ["add"] now d = Completion 1 [Stderr UsageAdd] d.
Proof. reflexivity. Qed.

Lemma run_add name rest now d :
  run ("add" :: name :: rest) now d =
    match getNextId (stored d) with
    | Throw e => failed d (Uncaught e)
    | Ok id =>
        let description := if bool_decide (1 < length (name :: rest))
                           then join " " rest else "" in
        saved d (stored d ++ [newTask id name description (toISOString now)]) (Added id)
    end.
Proof.
  unfold run. change (main ("add" :: name :: rest)) with (cmdAdd (name :: rest)).
  unfold cmdAdd. step.
  destruct (getNextId (stored d)) as [id|e]; [|reflexivity].
  unfold saved, failed. step. destruct (writeError d); step.
  - reflexivity.
  - rewrite <- app_assoc. reflexivity.
Qed.

Lemma run_update_usage args now d :
  length args < 2 → run ("update" :: args) now d = Completion 1 [Stderr UsageUpdate] d.
Proof. destruct args as [|? [|? ?]]; cbn [length]; [reflexivity..|lia]. Qed.

Lemma run_update arg0 arg1 rest now d :
  run ("update" :: arg0 :: arg1 :: rest) now d =
    let id := parseInt arg0 10 in
    if isNaN id then Completion 1 [Stderr InvalidId] d
    else touch id "description" (join " " (arg1 :: rest)) (Updated id) now d.
Proof.
  unfold run.
  change (main ("update" :: arg0 :: arg1 :: rest)) with (cmdUpdate (arg0 :: arg1 :: rest)).
  unfold cmdUpdate. cbn zeta. destruct (isNaN (parseInt arg0 10)); [reflexivity|].
  unfold touch, amend, failed, saved. step.
  destruct (findById _ _) as [[idx|]|e]; step; try reflexivity.
  destruct (assign (stored d) idx _ _) as [l1|e]; step; [|reflexivity].
  cbn [mbind result_bind].
  destruct (assign l1 idx _ _) as [l2|e]; step; [|reflexivity].
  destruct (writeError d); step; [reflexivity|].
  rewrite <- app_assoc. reflexivity.
Qed.

Lemma run_mark_usage command newStatus now d :
  (command, newStatus) ∈ [("mark-in-progress", "in-progress"); ("mark-done", "done")] →
  run [command] now d = Completion 1 [Stderr (UsageMark command)] d.
Proof.
  intros H. apply list_elem_of_In in H as [[= <- <-]|[[= <- <-]|[]]]; reflexivity.
Qed.

Lemma run_mark command newStatus arg0 rest now d :
  (command, newStatus) ∈ [("mark-in-progress", "in-progress"); ("mark-done", "done")] →
  run (command :: arg0 :: rest) now d =
    let id := parseInt arg0 10 in
    if isNaN id then Completion 1 [Stderr InvalidId] d
    else touch id "status" newStatus (Marked id newStatus) now d.
Proof.
  intros H. unfold run.
  assert (main (command :: arg0 :: rest) = cmdMark (arg0 :: rest) newStatus) as ->.
  { apply list_elem_of_In in H as [[= <- <-]|[[= <- <-]|[]]]; reflexivity. }
  unfold cmdMark. cbn zeta. destruct (isNaN (parseInt arg0 10)); [reflexivity|].
  unfold touch, amend, failed, saved. step.
  destruct (findById _ _) as [[idx|]|e]; step; try reflexivity.
  destruct (assign (stored d) idx _ _) as [l1|e]; step; [|reflexivity].
  cbn [mbind result_bind].
  destruct (assign l1 idx _ _) as [l2|e]; step; [|reflexivity].
  destruct (writeError d); step; [reflexivity|].
  rewrite <- app_assoc. reflexivity.
Qed.

Lemma run_delete_usage now d :
  run ["delete"] now d = Completion 1 [Stderr UsageDelete] d.
Proof. reflexivity. Qed.

Lemma run_delete arg0 rest now d :
  run ("delete" :: arg0 :: rest) now d =
    let id := parseInt arg0 10 in
    if isNaN id then Completion 1 [Stderr InvalidId] d
    else match dropById id (stored d) with
         | Throw e => failed d (Uncaught e)
         | Ok tasks =>
             if bool_decide (length tasks = length (stored d))
             then failed d (NotFound id)
             else saved d tasks (Deleted id)
         end.
Proof.
  unfold run.
  change (main ("delete" :: arg0 :: rest)) with (cmdDelete (arg0 :: rest)).
  unfold cmdDelete. cbn zeta. destruct (isNaN (parseInt arg0 10)); [reflexivity|].
  unfold dropById, failed, saved. step.
  destruct (filterM _ _) as [l1|e]; step; [|reflexivity].
  case_bool_decide; step; [reflexivity|].
  destruct (writeError d); step; [reflexivity|].
  rewrite <- app_assoc. reflexivity.
Qed.

Lemma printTask_eq t st :
  printTask t st =
    match taskLine t with
    | Ok m => (Return (), State (fs st) (clock st) (trace st ++ [Stdout m]))
    | Throw e => (Raise e, st)
    end.
Proof.
  unfold printTask, taskLine. step.
  destruct (Get t "description") as [d|e]; [|reflexivity].
  cbn [mbind result_bind].
  assert (∀ (r : result (option string)) (k : option string → proc unit)
            (k' : option string → result message),
            (∀ x, k x st = match k' x with
                           | Ok m => (Return (), State (fs st) (clock st) (trace st ++ [Stdout m]))
                           | Throw e => (Raise e, st) end) →
            match lift r st with
            | (Return a, st') => k a st'
            | (Exit code, st') => (Exit code, st')
            | (Raise e, st') => (Raise e, st')
            end = match r ≫= k' with
                  | Ok m => (Return (), State (fs st) (clock st) (trace st ++ [Stdout m]))
                  | Throw e => (Raise e, st) end) as Hk.
  { intros [x|e] k k' E; cbn; [apply E|reflexivity]. }
  assert (∀ (r : result string) (k : string → proc unit) (k' : string → result message),
            (∀ x, k x st = match k' x with
                           | Ok m => (Return (), State (fs st) (clock st) (trace st ++ [Stdout m]))
                           | Throw e => (Raise e, st) end) →
            (lift r ≫= k) st = match r ≫= k' with
                  | Ok m => (Return (), State (fs st) (clock st) (trace st ++ [Stdout m]))
                  | Throw e => (Raise e, st) end) as Hs.
  { intros [x|e] k k' E; cbn; [apply E|reflexivity]. }
  destruct (ToBoolean d).
  - rewrite bind_eq. destruct (ToString d) as [s|e]; cbn [lift mbind result_bind]; [|reflexivity].
    step. repeat (apply Hs; intros ?). reflexivity.
  - step. repeat (apply Hs; intros ?). reflexivity.
Qed.

Lemma forEach_printTask l st :
  forEach printTask l st =
    (match (listing l).2 with None => Return () | Some e => Raise e end,
     State (fs st) (clock st) (trace st ++ (listing l).1)).
Proof.
  revert st. induction l as [|t r IH]; intros [d now tr].
  - cbn. rewrite app_nil_r. reflexivity.
  - cbn [forEach listing]. rewrite bind_eq, printTask_eq.
    destruct (taskLine t) as [m|e]; cbn [fst snd fs clock trace].
    + rewrite IH. cbn [fs clock trace]. destruct (listing r) as [out e]. cbn [fst snd].
      rewrite <- app_assoc. reflexivity.
    + rewrite app_nil_r. reflexivity.
Qed.

Lemma run_list args now d :
  run ("list" :: args) now d =
    let given := bool_decide (is_Some (head args) ∧ head args ≠ Some "") in
    let filter := default "" (head args) in
    if given && negb (bool_decide (filter ∈ allowed))
    then Completion 1 [Stderr UsageList] d
    else match (if given then withStatus filter (stored d) else Ok (stored d)) with
         | Throw e => failed d (Uncaught e)
         | Ok toPrint =>
             if bool_decide (length toPrint = 0)
             then Completion 0 (loadWarning d ++ [Stdout NothingToShow]) d
             else match listing toPrint with
                  | (out, None) => Completion 0 (loadWarning d ++ out) d
                  | (out, Some e) =>
                      Completion 1 (loadWarning d ++ out ++ [Stderr (Uncaught e)]) d
                  end
         end.
Proof.
  unfold run. change (main ("list" :: args)) with (cmdList args).
  unfold cmdList. cbn zeta.
  destruct (_ && _); [reflexivity|]. step.
  assert (∀ toPrint,
    (let (o, st) :=
       (if bool_decide (length toPrint = 0) then console_log NothingToShow
        else forEach printTask toPrint) (State d now (loadWarning d)) in
     match o with
     | Return _ => Completion 0 (trace st) (fs st)
     | Exit code => Completion code (trace st) (fs st)
     | Raise e => Completion 1 (trace st ++ [Stderr (Uncaught e)]) (fs st)
     end) =
    if bool_decide (length toPrint = 0)
    then Completion 0 (loadWarning d ++ [Stdout NothingToShow]) d
    else match listing toPrint with
         | (out, None) => Completion 0 (loadWarning d ++ out) d
         | (out, Some e) =>
             Completion 1 (loadWarning d ++ out ++ [Stderr (Uncaught e)]) d
         end) as Hprint.
  { intros toPrint. case_bool_decide; [reflexivity|].
    rewrite forEach_printTask. cbn [fs clock trace].
    destruct (listing toPrint) as [out [e|]]; cbn [fst snd]; [|reflexivity].
    rewrite <- app_assoc. reflexivity. }
  destruct (bool_decide (is_Some (head args) ∧ _)); step.
  - unfold withStatus. destruct (filterM _ _) as [toPrint|e]; step; [|reflexivity].
    apply Hprint.
  - apply Hprint.
Qed.

Lemma run_help now d : run ["help"] now d = Completion 0 [Stdout Help] d.
Proof. reflexivity. Qed.

(** Every invocation is of one of the forms above, or prints the help text
    after at most one error line and leaves the file alone. *)
Lemma run_other argv now d :
  head argv ∉ Some <$> ["add"; "update"; "delete"; "mark-in-progress"; "mark-done"; "list"] →
  after (run argv now d) = d ∧
  ∃ errs, output (run argv now d) = errs ++ [Stdout Help] ∧
          ∀ v, Write v ∉ errs.
Proof.
  intros H. unfold run, main.
  repeat (destruct (decide (head argv = Some _)) as [Hc|_];
          [exfalso; apply H; rewrite Hc; cbn; set_solver|]).
  destruct (decide (_ ∨ _)).
  - split; [reflexivity|]. exists []. split; [reflexivity|].
    intros v Hin%list_elem_of_In. destruct Hin.
  - split; [reflexivity|]. eexists [_]. split; [reflexivity|].
    intros v Hin%list_elem_of_In. cbn in Hin. intuition discriminate.
Qed.
End Handlers.

(** ** Searching and filtering with callbacks that may throw *)
Module Search.
Import Text Num Json Proc TaskCli Notions Handlers.

Section Callbacks.
Context {A : Type} (p : A → result bool).

Lemma findIndex_Some l i :
  findIndex p l = Ok (Some i) ↔
  ∃ x, l !! i = Some x ∧ p x = Ok true ∧
       ∀ j y, j < i → l !! j = Some y → p y = Ok false.
Proof.
  revert i. induction l as [|a l IH]; intros i; cbn.
  - split; [discriminate|]. intros (x & Hx & _). discriminate.
  - destruct (p a) as [[|]|e] eqn:Ha; cbn.
    + split.
      * intros [= <-]. exists a. repeat split; [done..|]. intros j y Hj. lia.
      * intros (x & Hx & Hpx & Hlt). destruct i as [|i]; [done|].
        specialize (Hlt 0 a ltac:(lia) eq_refl). congruence.
    + assert (∀ i, (∃ x, (a :: l) !! S i = Some x ∧ p x = Ok true ∧
                      ∀ j y, j < S i → (a :: l) !! j = Some y → p y = Ok false) ↔
                   findIndex p l = Ok (Some i)) as Hshift.
      { intros k. rewrite IH. split; intros (x & Hx & Hpx & Hlt); exists x.
        - repeat split; [done..|]. intros j y Hj Hy. apply (Hlt (S j)); [lia|done].
        - repeat split; [done..|]. intros [|j] y Hj Hy.
          + cbn in Hy. congruence.
          + apply (Hlt j); [lia|done]. }
      split.
      * destruct (findIndex p l) as [[k|]|e]; cbn; [|discriminate..].
        intros [= <-]. by apply Hshift.
      * intros (x & Hx & Hpx & Hlt). destruct i as [|i].
        -- cbn in Hx. congruence.
        -- rewrite (proj1 (Hshift i)); [done|]. by exists x.
    + split; [discriminate|]. intros (x & Hx & Hpx & Hlt). destruct i as [|i].
      * cbn in Hx. congruence.
      * specialize (Hlt 0 a ltac:(lia) eq_refl). congruence.
Qed.

Lemma findIndex_None l :
  findIndex p l = Ok None ↔ Forall (λ x, p x = Ok false) l.
Proof.
  induction l as [|a l IH]; cbn.
  - split; [constructor|done].
  - destruct (p a) as [[|]|e] eqn:Ha; cbn.
    + split; [discriminate|]. intros H%Forall_cons. destruct H. congruence.
    + destruct (findIndex p l) as [[k|]|e]; cbn.
      * split; [discriminate|]. intros [_ H]%Forall_cons. apply IH in H. discriminate.
      * split; [|done]. intros _. constructor; [done|]. by apply IH.
      * split; [discriminate|]. intros [_ H]%Forall_cons. apply IH in H. discriminate.
    + split; [discriminate|]. intros [H _]%Forall_cons. congruence.
Qed.

(** When the callback accepts no element, the search comes back empty-handed
    or is cut short by an exception. *)
Lemma findIndex_no_hit l :
  Forall (λ x, p x ≠ Ok true) l →
  findIndex p l = Ok None ∨ ∃ e, findIndex p l = Throw e.
Proof.
  intros H. destruct (findIndex p l) as [[i|]|e] eqn:Hf; [|by left|by eauto].
  apply findIndex_Some in Hf as (x & Hx & Hpx & _).
  rewrite Forall_forall in H. exfalso. apply (H x); [|done].
  by eapply list_elem_of_lookup_2.
Qed.

Lemma filterM_Ok l :
  Forall (λ x, ∃ b, p x = Ok b) l → filterM p l = Ok (List.filter (holds p) l).
Proof.
  induction 1 as [|a l [b Hb] _ IH]; [done|].
  cbn. replace (holds p a) with b by (unfold holds; by rewrite Hb).
  rewrite Hb, IH. cbn. by destruct b.
Qed.

Lemma filterM_inv l l' :
  filterM p l = Ok l' → Forall (λ x, ∃ b, p x = Ok b) l ∧ l' = List.filter (holds p) l.
Proof.
  revert l'. induction l as [|a l IH]; intros l'; cbn.
  - intros [= <-]. by split.
  - destruct (p a) as [b|e] eqn:Ha; cbn; [|discriminate].
    destruct (filterM p l) as [r|e]; cbn; [|discriminate].
    intros [= <-]. destruct (IH r eq_refl) as [H ->]. split.
    + constructor; [by eauto|done].
    + cbn. replace (holds p a) with b by (unfold holds; by rewrite Ha). done.
Qed.


Lemma filter_all (f : A → bool) (l : list A) :
  Forall (λ x, f x = true) l → List.filter f l = l.
Proof. induction 1 as [|a l Ha _ IH]; cbn; [done|]. by rewrite Ha, IH. Qed.

End Callbacks.


End Search.

(** ** Tasks addressed by id *)
Module Lookup.
Import Text Num Json Proc TaskCli Notions Handlers Search.

Lemma strictEquals_true x y : strictEquals x y = true ↔ x = y ∧ y ≠ NaN.
Proof.
  unfold strictEquals. destruct x, y; rewrite ?bool_decide_eq_true; naive_solver.
Qed.

Lemma sameId_Ok id t b : sameId id t = Ok b ↔ ∃ n, idOf t = Ok n ∧ b = strictEquals n id.
Proof.
  unfold sameId. destruct (idOf t) as [n|e]; cbn.
  - split; [intros [= <-]; by eauto|]. by intros (? & [= <-] & ->).
  - split; [done|]. by intros (? & [=] & _).
Qed.

Lemma matches_idOf id t : matches id t = true ↔ idOf t = Ok id ∧ id ≠ NaN.
Proof.
  unfold matches, holds, sameId. destruct (idOf t) as [x|e]; cbn.
  - rewrite strictEquals_true. split; [by intros [-> ?]|by intros [[= ->] ?]].
  - split; [done|by intros [? _]].
Qed.

Lemma isNaN_false id : id ≠ NaN ↔ isNaN id = false.
Proof. by destruct id. Qed.


(** Only an object with an [id] of its own is addressed by a number. *)
Lemma idOf_obj t x : idOf t = Ok x → x ≠ NaN → ∃ m, t = JObj m ∧ is_Some (m !! "id").
Proof.
  unfold idOf. destruct t as [| | | | |m]; try (cbn; congruence).
  cbn [Get mbind result_bind]. destruct (m !! "id") as [v|] eqn:E; [|cbn; congruence].
  intros _ _. exists m. split; [done|]. rewrite E. by eexists.
Qed.

(** The task that [findById] finds has the id, which is a number. *)
Lemma findById_hit id l i :
  findById id l = Ok (Some i) → ∃ t, l !! i = Some t ∧ idOf t = Ok id ∧ id ≠ NaN.
Proof.
  unfold findById. change (λ t, n0 ← idOf t; mret (strictEquals n0 id)) with (sameId id).
  rewrite findIndex_Some. intros (t & Ht & Hm & _). exists t. split; [done|].
  apply sameId_Ok in Hm as (x & Hx & Hb). symmetry in Hb.
  by apply strictEquals_true in Hb as [-> ?].
Qed.

Lemma findById_Some n l i :
  findById (Int n) l = Ok (Some i) ↔
  ∃ t, l !! i = Some t ∧ idOf t = Ok (Int n) ∧
       ∀ j t', j < i → l !! j = Some t' → ∃ x, idOf t' = Ok x ∧ x ≠ Int n.
Proof.
  unfold findById. change (λ t, n0 ← idOf t; mret (strictEquals n0 (Int n))) with (sameId (Int n)).
  rewrite findIndex_Some. split; intros (t & Ht & Hm & Hlt); exists t.
  - repeat split; [done| |].
    + apply sameId_Ok in Hm as (x & Hx & Hb). symmetry in Hb.
      apply strictEquals_true in Hb as [-> _]. done.
    + intros j t' Hj Ht'. apply Hlt in Ht'; [|done].
      apply sameId_Ok in Ht' as (x & Hx & Hb). exists x. split; [done|].
      intros ->. by rewrite (proj2 (strictEquals_true _ _)) in Hb.
  - repeat split; [done| |].
    + apply sameId_Ok. exists (Int n). split; [done|]. symmetry.
      by apply strictEquals_true.
    + intros j t' Hj Ht'. destruct (Hlt j t' Hj Ht') as (x & Hx & Hne).
      apply sameId_Ok. exists x. split; [done|].
      destruct (strictEquals x (Int n)) eqn:E; [|done].
      apply strictEquals_true in E as [-> _]. done.
Qed.

Lemma amend_object l i m k v now :
  l !! i = Some (JObj m) → amend l i k v now = Ok (<[i := amended m k v now]> l).
Proof.
  intros Hi. unfold amend, assign. rewrite Hi.
  cbn [Put mbind result_bind mret result_ret].
  rewrite list_lookup_insert_eq by (by eapply lookup_lt_Some).
  cbn [Put mbind result_bind mret result_ret].
  by rewrite list_insert_insert_eq.
Qed.

(** A handler that finds its task rewrites it in place and saves. *)
Lemma touch_found id k v ok now d i :
  findById id (stored d) = Ok (Some i) →
  ∃ m, stored d !! i = Some (JObj m) ∧ is_Some (m !! "id") ∧
       touch id k v ok now d = saved d (<[i := amended m k v now]> (stored d)) ok.
Proof.
  intros Hf. pose proof Hf as (t & Ht & Hid & Hnum)%findById_hit.
  apply idOf_obj in Hid as (m & -> & Hm); [|done]. exists m. repeat split; [done..|].
  unfold touch. rewrite Hf, (amend_object _ _ m); done.
Qed.

(** Replaces a closed term of the goal by its value. *)
Ltac evaluate t :=
  let v := eval vm_compute in t in
  replace t with v by (vm_compute; reflexivity).

Lemma amended_lookup m k v now k' :
  amended m k v now = JObj (<["updatedAt" := JStr (toISOString now)]> (<[k := JStr v]> m)) ∧
  Get (amended m k v now) "updatedAt" = Ok (Some (JStr (toISOString now))) ∧
  (k ≠ "updatedAt" → Get (amended m k v now) k = Ok (Some (JStr v))) ∧
  (k' ≠ k → k' ≠ "updatedAt" → Get (amended m k v now) k' = Get (JObj m) k').
Proof.
  unfold amended. cbn. repeat split.
  - by rewrite lookup_insert_eq.
  - intros Hk. by rewrite lookup_insert_ne, lookup_insert_eq.
  - intros H1 H2. by rewrite !lookup_insert_ne.
Qed.



End Lookup.

(** ** Loading and saving *)
Module Persistence.
Import Text Num Json Proc TaskCli Notions Handlers.

Lemma writes_app out1 out2 : writes (out1 ++ out2) = writes out1 ++ writes out2.
Proof. apply omap_app. Qed.

Lemma writes_loadWarning d : writes (loadWarning d) = [].
Proof. unfold loadWarning. by destruct (file d) as [[]|]. Qed.

Lemma writes_listing l : writes (listing l).1 = [].
Proof.
  induction l as [|t r IH]; [done|]. cbn.
  destruct (taskLine t); [|done]. by destruct (listing r).
Qed.

Lemma writes_elem v out : Write v ∈ out ↔ v ∈ writes out.
Proof.
  unfold writes. rewrite list_elem_of_omap. split.
  - intros H. by exists (Write v).
  - intros ([] & H & [= ->]). done.
Qed.

Lemma touch_verdict id k v ok now d : verdict d (touch id k v ok now d).
Proof.
  unfold touch. destruct (findById _ _) as [[i|]|e]; try constructor.
  destruct (amend _ _ _ _ _); constructor.
Qed.

Lemma mutating_verdict command args now d :
  command ∈ mutating → verdict d (run (command :: args) now d).
Proof.
  intros H. apply list_elem_of_In in H. cbn in H.
  destruct H as [<-|[<-|[<-|[<-|[<-|[]]]]]].
  - destruct args as [|name rest]; [rewrite run_add_nothing; constructor|].
    rewrite run_add. destruct (getNextId _); constructor.
  - destruct args as [|a0 [|a1 rest]];
      [rewrite run_update_usage by (cbn; lia); constructor..|].
    rewrite run_update. cbn zeta. destruct (isNaN _); [constructor|apply touch_verdict].
  - destruct args as [|a0 rest]; [rewrite run_delete_usage; constructor|].
    rewrite run_delete. cbn zeta. destruct (isNaN _); [constructor|].
    destruct (dropById _ _); [|constructor]. case_bool_decide; constructor.
  - destruct args as [|a0 rest].
    + rewrite (run_mark_usage _ "in-progress") by set_solver. constructor.
    + rewrite (run_mark _ "in-progress") by set_solver. cbn zeta.
      destruct (isNaN _); [constructor|apply touch_verdict].
  - destruct args as [|a0 rest].
    + rewrite (run_mark_usage _ "done") by set_solver. constructor.
    + rewrite (run_mark _ "done") by set_solver. cbn zeta.
      destruct (isNaN _); [constructor|apply touch_verdict].
Qed.

Lemma failed_inert d m :
  exitCode (failed d m) = 1%Z ∧ after (failed d m) = d ∧ writes (output (failed d m)) = [].
Proof.
  unfold failed. cbn. by rewrite writes_app, writes_loadWarning.
Qed.

Lemma list_inert args now d :
  after (run ("list" :: args) now d) = d ∧
  writes (output (run ("list" :: args) now d)) = [].
Proof.
  rewrite run_list. cbn zeta. destruct (_ && _); [done|].
  destruct (if bool_decide _ then _ else _) as [toPrint|e]; [|apply failed_inert].
  case_bool_decide.
  - cbn. by rewrite writes_app, writes_loadWarning.
  - pose proof (writes_listing toPrint) as Hw.
    destruct (listing toPrint) as [out [e|]]; cbn [output after fst] in *;
      rewrite ?writes_app, writes_loadWarning, Hw; done.
Qed.

(** C5, as the code has it.  [loadTasks] returns the empty collection,
    without a warning, when the data file is absent and when its content is
    blank; when the content is not blank and cannot be parsed it prints a
    warning on standard error and returns the empty collection, without
    exiting; and when the content parses to something that is not an array it
    returns the empty collection as well. *)
Theorem loadTasks_lenient w now tr :
  loadTasks (State (Disk None w) now tr) = (Return [], State (Disk None w) now tr) ∧
  (∀ raw, isBlank raw = true →
     loadTasks (State (Disk (Some raw) w) now tr) =
       (Return [], State (Disk (Some raw) w) now tr)) ∧
  (∀ raw msg, isBlank raw = false → JSON_parse raw = inl msg →
     loadTasks (State (Disk (Some raw) w) now tr) =
       (Return [], State (Disk (Some raw) w) now (tr ++ [Stderr (WarnLoad msg)]))) ∧
  (∀ raw v, isBlank raw = false → JSON_parse raw = inr v → (∀ l, v ≠ JArr l) →
     loadTasks (State (Disk (Some raw) w) now tr) =
       (Return [], State (Disk (Some raw) w) now tr)).
Proof.
  split; [done|]. split; [|split].
  - by intros [| |].
  - intros [|msg'|v] msg; try done. by intros _ [= ->].
  - intros [|msg|v'] v; try done. intros _ [= ->] Hv.
    destruct v; try done. by destruct (Hv l).
Qed.

(** C5, on a blank file, on a file that is not JSON, and on the file [{}]. *)
Lemma loadTasks_lenient_witness :
  loadTasks (State (Disk (Some Blank) None) 0 []) =
    (Return [], State (Disk (Some Blank) None) 0 []) ∧
  loadTasks (State (Disk (Some (Malformed "Unexpected token")) None) 0 []) =
    (Return [], State (Disk (Some (Malformed "Unexpected token")) None) 0
                  [Stderr (WarnLoad "Unexpected token")]) ∧
  loadTasks (State (Disk (Some (Document (JObj ∅))) None) 0 []) =
    (Return [], State (Disk (Some (Document (JObj ∅))) None) 0 []).
Proof.
  destruct (loadTasks_lenient None 0 []) as (_ & Hblank & Hbad & Hother).
  split; [exact (Hblank Blank eq_refl)|]. split.
  - exact (Hbad (Malformed "Unexpected token") "Unexpected token" eq_refl eq_refl).
  - apply (Hother (Document (JObj ∅)) (JObj ∅) eq_refl eq_refl). intros l. discriminate.
Defined.

(** C5 as stated fails on a blank data file: its content cannot be parsed
    as JSON, and yet [loadTasks] returns the empty collection without
    printing the warning. *)
Lemma blank_file_loads_without_warning :
  JSON_parse Blank = inl "Unexpected end of JSON input" ∧
  loadTasks (State (Disk (Some Blank) None) 0 []) =
    (Return [], State (Disk (Some Blank) None) 0 []) ∧
  ¬ ∃ msg, Stderr (WarnLoad msg) ∈ trace (loadTasks (State (Disk (Some Blank) None) 0 [])).2.
Proof.
  split; [done|]. split; [done|]. intros [msg Hin]. by apply elem_of_nil in Hin.
Qed.

(** C2, as the code has it.  [list] only loads and prints: it leaves the data
    file as it is and writes nothing.  The handlers that change the
    collection (add, update, delete, mark-in-progress, mark-done) load it,
    and then either complete with exit code 0, having written the new
    collection to the file just before the confirmation line, or end with a
    non-zero exit code and the file untouched. *)
Theorem save_follows_mutation_only command args now d :
  let c := run (command :: args) now d in
  (command = "list" → after c = d ∧ writes (output c) = []) ∧
  (command ∈ mutating →
     (exitCode c = 0%Z →
        ∃ tasks m, output c = loadWarning d ++ [Write (JArr tasks); Stdout m] ∧
                   file (after c) = Some (Document (JArr tasks)) ∧
                   writes (output c) = [JArr tasks]) ∧
     (exitCode c ≠ 0%Z → after c = d ∧ writes (output c) = [])).
Proof.
  cbn zeta. split; [intros ->; apply list_inert|].
  intros Hm. destruct (mutating_verdict command args now d Hm) as [m|m|tasks m].
  - split; [done|]. by intros _.
  - split; [done|]. intros _. split; apply failed_inert.
  - unfold saved. destruct (writeError d) as [err|].
    + split; [done|]. intros _. split; apply failed_inert.
    + split; [|done]. intros _. exists tasks, m. repeat split; [done..|].
      cbn. by rewrite writes_app, writes_loadWarning.
Qed.

(** C2, on a list and on an add over a store of one task. *)
Lemma save_follows_mutation_only_witness :
  let listed := run ["list"] 1700000000001 oneTask in
  let added := run ["add"; "Walk"; "the"; "dog"] 1700000000001 oneTask in
  (after listed = oneTask ∧ writes (output listed) = []) ∧
  (∃ tasks m, output added = loadWarning oneTask ++ [Write (JArr tasks); Stdout m] ∧
              file (after added) = Some (Document (JArr tasks)) ∧
              writes (output added) = [JArr tasks]).
Proof.
  cbn zeta. split.
  - apply (proj1 (save_follows_mutation_only "list" [] 1700000000001 oneTask)).
    reflexivity.
  - apply (proj2 (save_follows_mutation_only "add" ["Walk"; "the"; "dog"]
                    1700000000001 oneTask)).
    + constructor.
    + vm_compute. reflexivity.
Defined.

(** C2 as stated fails: listing a store of one task prints its line and
    performs no save. *)
Lemma list_performs_no_save :
  output (run ["list"] 1700000000001 oneTask) =
    [Stdout (TaskLine "1" "Buy milk" None "todo"
               "2023-11-14T22:13:20.000Z" "2023-11-14T22:13:20.000Z")] ∧
  ¬ ∃ v, Write v ∈ output (run ["list"] 1700000000001 oneTask).
Proof.
  split; [vm_compute; reflexivity|].
  intros [v Hv]. apply writes_elem in Hv. vm_compute in Hv. by apply elem_of_nil in Hv.
Qed.

End Persistence.

(** ** Numbers read from text *)
Module Rounding.
Import Text Num.

Lemma digitsValue_nonneg_from R ds acc :
  (0 ≤ R)%Z → (0 ≤ acc)%Z → Forall (λ d, 0 ≤ d)%Z ds →
  (0 ≤ fold_left (λ acc d, acc * R + d) ds acc)%Z.
Proof.
  intros HR Hacc Hds. revert acc Hacc.
  induction Hds as [|d ds Hd _ IH]; intros acc Hacc; [done|].
  cbn [fold_left]. apply IH. nia.
Qed.

Lemma scanDigits_nonneg R s : Forall (λ d, 0 ≤ d)%Z (scanDigits R s).1.
Proof.
  induction s as [|c r IH]; [constructor|]. cbn [scanDigits].
  destruct (radixDigit R c) as [d|] eqn:Hd; [|constructor].
  destruct (scanDigits R r) as [ds rest]. cbn [fst] in *. constructor; [|done].
  unfold radixDigit in Hd.
  repeat match type of Hd with
         | context [if ?b then _ else _] => destruct b eqn:?
         end; try discriminate; injection Hd as <-; lia.
Qed.

(** The digits that [scanDigits] finds denote an integer that is not
    negative. *)
Lemma digitsValue_nonneg R s : (0 ≤ R)%Z → (0 ≤ digitsValue R (scanDigits R s).1)%Z.
Proof.
  intros HR. apply digitsValue_nonneg_from; [done..|apply scanDigits_nonneg].
Qed.

Lemma normalise_pow10 z k : normalise (z * 10 ^ Z.of_nat k) k = Int z.
Proof.
  induction k as [|k IH]; [cbn [normalise]; f_equal; change (10 ^ Z.of_nat 0)%Z with 1%Z; lia|].
  cbn [normalise]. rewrite Nat2Z.inj_succ, Z.pow_succ_r by lia.
  replace (z * (10 * 10 ^ Z.of_nat k))%Z with (z * 10 ^ Z.of_nat k * 10)%Z by lia.
  rewrite Z.mod_mul by lia. rewrite Z.div_mul by lia. exact IH.
Qed.

Lemma roundHalfEven_1 n : roundHalfEven n 1 = n.
Proof.
  unfold roundHalfEven. rewrite Z.mod_1_r, Z.div_1_r. reflexivity.
Qed.

Lemma exponent_integer z : (0 < z)%Z → exponent z 1 = Z.log2 z.
Proof.
  intros Hz. unfold exponent, over2. change (Z.log2 1) with 0%Z. rewrite Z.sub_0_r.
  pose proof (Z.log2_nonneg z) as Hnn.
  rewrite (proj2 (Z.leb_le _ _) Hnn).
  destruct (Z.log2_spec z Hz) as [Hlo _].
  rewrite (proj2 (Z.ltb_ge _ _)) by lia. reflexivity.
Qed.

(** An integer up to 2^53 is a double. *)
Lemma nearestDouble_small z : (0 ≤ z ≤ 2 ^ 53)%Z → nearestDouble z 1 = Int z.
Proof.
  intros [Hlo Hhi].
  destruct (decide (z = 2 ^ 53)%Z) as [->|Hne]; [vm_compute; reflexivity|].
  destruct (decide (z = 0)%Z) as [->|Hnz]; [reflexivity|].
  assert (Z.log2 z < 53)%Z as Hlog by (apply Z.log2_lt_pow2; lia).
  pose proof (Z.log2_nonneg z) as Hnn.
  unfold nearestDouble. rewrite (proj2 (Z.eqb_neq _ _) Hnz).
  rewrite exponent_integer by lia. rewrite Z.max_l by lia.
  set (q := (Z.log2 z - 52)%Z). unfold over2.
  destruct (Z.leb_spec 0 q) as [Hq|Hq].
  - assert (q = 0)%Z as -> by lia. change (1 * 2 ^ 0)%Z with 1%Z.
    rewrite roundHalfEven_1.
    rewrite (proj2 (Z.leb_gt _ _)) by lia. f_equal. lia.
  - rewrite roundHalfEven_1.
    rewrite Z.log2_mul_pow2 by lia.
    rewrite (proj2 (Z.leb_gt _ _)) by lia.
    rewrite <- Z.mul_assoc, <- Z.pow_mul_l. change (2 * 5)%Z with 10%Z.
    rewrite <- (Z2Nat.id (- q)) at 1 by lia. apply normalise_pow10.
Qed.

Lemma normalise_not_NaN m k : isNaN (normalise m k) = false.
Proof.
  revert m. induction k as [|k IH]; intros m; cbn [normalise]; [done|].
  destruct (_ =? _)%Z; [apply IH|done].
Qed.

Lemma nearestDouble_not_NaN a b : isNaN (nearestDouble a b) = false.
Proof.
  unfold nearestDouble. destruct (a =? 0)%Z; [done|].
  destruct (over2 _ _ _) as [n d]. destruct (_ <=? _)%Z; [done|].
  destruct (_ <=? _)%Z; [done|apply normalise_not_NaN].
Qed.

Lemma isNaN_withSign neg x : isNaN (withSign neg x) = isNaN x.
Proof. by destruct neg, x. Qed.

End Rounding.

(** ** The id argument *)
Module Arguments.
Import Text Num Json Proc TaskCli Notions Handlers Lookup Persistence Rounding.

Lemma digit_is_plain c :
  isDigit c = true → isStrWhiteSpaceChar c = false ∧ c ≠ "-"%char ∧ c ≠ "+"%char.
Proof.
  destruct c as [[] [] [] [] [] [] [] []]; vm_compute; intros H;
    try discriminate H; repeat split; discriminate.
Qed.

Lemma scanDigits_digits ds tail :
  allDigits ds = true → startsWithDigit tail = false →
  scanDigits 10 (ds +:+ tail) = ((scanDigits 10 ds).1, tail) ∧
  (scanDigits 10 ds).2 = EmptyString.
Proof.
  intros Hds Htail. induction ds as [|c r IH].
  - split; [|done]. change (EmptyString +:+ tail) with tail.
    destruct tail as [|c t]; [done|]. cbn [startsWithDigit] in Htail.
    unfold isDigit in Htail. apply bool_decide_eq_false in Htail.
    cbn [scanDigits]. destruct (radixDigit 10 c); [|done]. destruct Htail. by eexists.
  - cbn [allDigits] in Hds. apply andb_prop in Hds as [Hc Hr].
    unfold isDigit in Hc. apply bool_decide_eq_true in Hc as [v Hv].
    change (String c r +:+ tail) with (String c (r +:+ tail)).
    cbn [scanDigits]. rewrite Hv. destruct (IH Hr) as [-> E].
    destruct (scanDigits 10 r). done.
Qed.

(** [parseInt(s, 10)] *)
Lemma parseInt_10 s :
  parseInt s 10 =
    match scanDigits 10 (splitSign (trimStart s)).2 with
    | ([], _) => NaN
    | (ds, _) =>
        withSign (splitSign (trimStart s)).1 (nearestDouble (digitsValue 10 ds) 1)
    end.
Proof. unfold parseInt. by destruct (splitSign (trimStart s)). Qed.

(** [parseInt] finds no integer exactly when, after white space and one
    sign, the string does not start with a digit. *)
Lemma parseInt_NaN s :
  parseInt s 10 = NaN ↔ startsWithDigit (splitSign (trimStart s)).2 = false.
Proof.
  rewrite parseInt_10. destruct (splitSign (trimStart s)).2 as [|c r]; [done|].
  cbn [scanDigits startsWithDigit]. unfold isDigit.
  destruct (radixDigit 10 c) as [v|]; [|done].
  destruct (scanDigits 10 r) as [ds rest]. split; [|done].
  intros E. pose proof (isNaN_withSign (splitSign (trimStart s)).1
                          (nearestDouble (digitsValue 10 (v :: ds)) 1)) as H.
  rewrite E, nearestDouble_not_NaN in H. done.
Qed.

Lemma parseInt_digits ds tail :
  ds ≠ EmptyString → allDigits ds = true → startsWithDigit tail = false →
  parseInt (ds +:+ tail) 10 = nearestDouble (digitsValue 10 (scanDigits 10 ds).1) 1.
Proof.
  intros Hne Hds Htail. destruct (scanDigits_digits ds tail Hds Htail) as [E _].
  destruct ds as [|c r]; [done|]. cbn in Hds. apply andb_prop in Hds as [Hc Hr].
  destruct (digit_is_plain c Hc) as (Hws & Hminus & Hplus).
  rewrite parseInt_10. change (String c r +:+ tail) with (String c (r +:+ tail)) in *.
  cbn [trimStart]. rewrite Hws.
  assert (splitSign (String c (r +:+ tail)) = (false, String c (r +:+ tail))) as ->.
  { unfold splitSign. destruct c as [[] [] [] [] [] [] [] []]; done. }
  cbn [fst snd]. rewrite E. cbn [withSign].
  destruct (scanDigits 10 (String c r)).1 as [|x xs] eqn:Hs; [|done].
  cbn [scanDigits] in Hs. unfold isDigit in Hc. apply bool_decide_eq_true in Hc as [v Hv].
  rewrite Hv in Hs. by destruct (scanDigits 10 r).
Qed.

(** The handlers look at their first argument through [parseInt] only. *)
Lemma run_by_parsed_id command a b rest now d :
  command ∈ addressing → parseInt a 10 = parseInt b 10 →
  run (command :: a :: rest) now d = run (command :: b :: rest) now d.
Proof.
  intros H E. apply list_elem_of_In in H. cbn in H.
  destruct H as [<-|[<-|[<-|[<-|[]]]]].
  - destruct rest as [|a1 rest]; [by rewrite !run_update_usage by (cbn; lia)|].
    by rewrite !run_update, E.
  - by rewrite !run_delete, E.
  - by rewrite !(run_mark _ "in-progress") by set_solver; rewrite E.
  - by rewrite !(run_mark _ "done") by set_solver; rewrite E.
Qed.

Lemma InvalidId_not_in_failed d m :
  m ≠ InvalidId → Stderr InvalidId ∉ output (failed d m).
Proof.
  intros Hm. unfold failed, loadWarning. cbn.
  destruct (file d) as [[]|]; cbn; intros Hin%list_elem_of_In; cbn in Hin;
    intuition congruence.
Qed.

Lemma InvalidId_not_in_saved d tasks m :
  Stderr InvalidId ∉ output (saved d tasks m).
Proof.
  unfold saved. destruct (writeError d); [by apply InvalidId_not_in_failed|].
  unfold loadWarning. cbn.
  destruct (file d) as [[]|]; cbn; intros Hin%list_elem_of_In; cbn in Hin;
    intuition congruence.
Qed.

Lemma InvalidId_not_in_touch id k v ok now d :
  Stderr InvalidId ∉ output (touch id k v ok now d).
Proof.
  unfold touch. destruct (findById _ _) as [[i|]|e];
    try (by apply InvalidId_not_in_failed).
  destruct (amend _ _ _ _ _); [apply InvalidId_not_in_saved|by apply InvalidId_not_in_failed].
Qed.

Lemma InvalidId_only_for_NaN command a rest now d :
  command ∈ addressing →
  Stderr InvalidId ∈ output (run (command :: a :: rest) now d) → parseInt a 10 = NaN.
Proof.
  intros H. apply list_elem_of_In in H. cbn in H.
  assert (∀ x, isNaN x = true → x = NaN) as HNaN by (by intros []).
  destruct H as [<-|[<-|[<-|[<-|[]]]]].
  - destruct rest as [|a1 rest].
    { rewrite run_update_usage by (cbn; lia). cbn.
      intros Hin%list_elem_of_In. cbn in Hin. intuition congruence. }
    rewrite run_update. cbn zeta. destruct (isNaN _) eqn:E; [by auto|].
    intros Hin. by apply InvalidId_not_in_touch in Hin.
  - rewrite run_delete. cbn zeta. destruct (isNaN _) eqn:E; [by auto|].
    intros Hin. exfalso. revert Hin. destruct (dropById _ _).
    + case_bool_decide; [by apply InvalidId_not_in_failed|apply InvalidId_not_in_saved].
    + by apply InvalidId_not_in_failed.
  - rewrite (run_mark _ "in-progress") by set_solver. cbn zeta.
    destruct (isNaN _) eqn:E; [by auto|].
    intros Hin. by apply InvalidId_not_in_touch in Hin.
  - rewrite (run_mark _ "done") by set_solver. cbn zeta.
    destruct (isNaN _) eqn:E; [by auto|].
    intros Hin. by apply InvalidId_not_in_touch in Hin.
Qed.

Lemma InvalidId_for_NaN command a rest now d :
  command ∈ addressing → (command = "update" → rest ≠ []) →
  parseInt a 10 = NaN →
  run (command :: a :: rest) now d = Completion 1 [Stderr InvalidId] d.
Proof.
  intros H Harity E. apply list_elem_of_In in H. cbn in H.
  destruct H as [<-|[<-|[<-|[<-|[]]]]].
  - destruct rest as [|a1 rest]; [by destruct Harity|]. by rewrite run_update, E.
  - by rewrite run_delete, E.
  - by rewrite (run_mark _ "in-progress"), E by set_solver.
  - by rewrite (run_mark _ "done"), E by set_solver.
Qed.

(** C9. An id argument made of decimal digits followed by anything that does
    not start with a digit (as in ["2abc"]) is read as its digits alone are:
    update, delete, mark-in-progress and mark-done do with it exactly what
    they do with the digits alone.  What they read is the double nearest to
    the integer that the digits denote: the integer itself when it is at
    most 2^53, and otherwise possibly another one.  And whatever the
    argument, these handlers print the invalid-id error only when [parseInt]
    finds no leading integer in it, which is when, after white space and one
    sign, it does not start with a digit; they then print nothing else and
    exit with code 1, the file untouched. *)
Theorem id_argument_read_by_prefix command digits tail rest now d :
  command ∈ addressing →
  digits ≠ EmptyString → allDigits digits = true → startsWithDigit tail = false →
  (parseInt (digits +:+ tail) 10 = parseInt digits 10 ∧
   parseInt digits 10 = nearestDouble (digitsValue 10 (scanDigits 10 digits).1) 1 ∧
   ((digitsValue 10 (scanDigits 10 digits).1 ≤ 2 ^ 53)%Z →
    parseInt (digits +:+ tail) 10 = Int (digitsValue 10 (scanDigits 10 digits).1))) ∧
  run (command :: (digits +:+ tail) :: rest) now d = run (command :: digits :: rest) now d ∧
  (Stderr InvalidId ∉ output (run (command :: (digits +:+ tail) :: rest) now d)) ∧
  (∀ arg0, Stderr InvalidId ∈ output (run (command :: arg0 :: rest) now d) →
           parseInt arg0 10 = NaN) ∧
  (∀ arg0, parseInt arg0 10 = NaN ↔
           startsWithDigit (splitSign (trimStart arg0)).2 = false) ∧
  (∀ arg0, parseInt arg0 10 = NaN → (command = "update" → rest ≠ []) →
           run (command :: arg0 :: rest) now d = Completion 1 [Stderr InvalidId] d).
Proof.
  intros Hc Hne Hds Htail.
  pose proof (parseInt_digits digits tail Hne Hds Htail) as E1.
  pose proof (parseInt_digits digits EmptyString Hne Hds eq_refl) as E2.
  replace (digits +:+ EmptyString) with digits in E2.
  2:{ clear. induction digits as [|c r IH]; [done|].
      change (String c r +:+ EmptyString) with (String c (r +:+ EmptyString)).
      f_equal. exact IH. }
  split; [split; [congruence|split; [done|]]|].
  { intros Hle. rewrite E1. apply nearestDouble_small.
    split; [by apply digitsValue_nonneg|done]. }
  split; [|split; [|split; [|split]]].
  - apply run_by_parsed_id; [done|]. by rewrite E1, E2.
  - intros Hin. apply InvalidId_only_for_NaN in Hin; [|done].
    pose proof (nearestDouble_not_NaN (digitsValue 10 (scanDigits 10 digits).1) 1) as H.
    rewrite <- E1, Hin in H. done.
  - intros arg0. by apply InvalidId_only_for_NaN.
  - intros arg0. apply parseInt_NaN.
  - intros arg0 E Harity. by apply InvalidId_for_NaN.
Qed.

(** C9, on the argument ["2abc"]. *)
Lemma id_argument_read_by_prefix_witness :
  parseInt "2abc" 10 = Int 2 ∧
  run ["mark-done"; "2abc"] 1700000120000 twoTasks =
    run ["mark-done"; "2"] 1700000120000 twoTasks.
Proof.
  assert ("mark-done" ∈ addressing) as Hc by (repeat constructor).
  assert ("2" ≠ EmptyString) as Hne by discriminate.
  destruct (id_argument_read_by_prefix "mark-done" "2" "abc" [] 1700000120000 twoTasks
              Hc Hne eq_refl eq_refl) as ((_ & _ & E) & R & _).
  split; [apply E; vm_compute; discriminate|exact R].
Defined.

(** C9 as stated fails: the argument ["9007199254740993abc"] begins with the
    integer 9007199254740993, which is the id of no stored task; [update]
    accepts it all the same and rewrites the task whose id is
    9007199254740992, the double nearest to that integer. *)
Lemma prefix_above_2_53_addresses_another_id :
  parseInt "9007199254740993abc" 10 = Int 9007199254740992 ∧
  Forall (λ t, idOf t ≠ Ok (Int 9007199254740993)) (stored largeId) ∧
  exitCode (run ["update"; "9007199254740993abc"; "x"] 1700000000000 largeId) = 0%Z ∧
  ∃ t t',
    stored largeId !! 0 = Some t ∧ idOf t = Ok (Int 9007199254740992) ∧
    stored (after (run ["update"; "9007199254740993abc"; "x"] 1700000000000 largeId)) !! 0
      = Some t' ∧
    Get t "description" = Ok (Some (JStr "")) ∧
    Get t' "description" = Ok (Some (JStr "x")).
Proof.
  split; [vm_compute; reflexivity|]. split.
  { evaluate (stored largeId). repeat constructor. vm_compute. discriminate. }
  split; [vm_compute; reflexivity|].
  evaluate (stored largeId).
  evaluate (stored (after (run ["update"; "9007199254740993abc"; "x"] 1700000000000 largeId))).
  eexists _, _. split; [reflexivity|]. split; [vm_compute; reflexivity|].
  split; [reflexivity|]. split; vm_compute; reflexivity.
Qed.

End Arguments.

(** ** Update, delete and mark on the task an id addresses *)
Module Addressing.
Import Text Num Json Proc TaskCli Notions Handlers Search Lookup Persistence Arguments.

Lemma target_field command rest k v :
  target command rest = Some (k, v) → k ≠ "id" ∧ k ≠ "updatedAt".
Proof.
  unfold target. repeat case_decide; try done; [destruct rest|..]; try done;
    by intros [= <- <-].
Qed.

(** What update and mark do once [parseInt] has read a number. *)
Lemma run_touches command arg0 rest now d k v :
  target command rest = Some (k, v) → isNaN (parseInt arg0 10) = false →
  ∃ ok, run (command :: arg0 :: rest) now d = touch (parseInt arg0 10) k v ok now d.
Proof.
  unfold target. intros Ht Hid. repeat case_decide; subst; try done.
  - destruct rest as [|a1 rest]; [done|]. injection Ht as <- <-.
    rewrite run_update. cbn zeta. rewrite Hid. by eexists.
  - injection Ht as <- <-. rewrite (run_mark _ "in-progress") by set_solver.
    cbn zeta. rewrite Hid. by eexists.
  - injection Ht as <- <-. rewrite (run_mark _ "done") by set_solver.
    cbn zeta. rewrite Hid. by eexists.
Qed.


Lemma saved_ok d tasks ok :
  writeError d = None →
  saved d tasks ok =
    Completion 0 (loadWarning d ++ [Write (JArr tasks); Stdout ok])
               (Disk (Some (Document (JArr tasks))) None).
Proof. intros Hw. unfold saved. by rewrite Hw. Qed.



Lemma sameId_no_hit id l :
  Forall (λ t, idOf t ≠ Ok id) l → Forall (λ t, sameId id t ≠ Ok true) l.
Proof.
  intros H. eapply Forall_impl; [exact H|]. intros t Ht (x & Hx & Hb)%sameId_Ok.
  symmetry in Hb. apply strictEquals_true in Hb as [-> _]. done.
Qed.

Lemma sameId_all_miss id l :
  Forall (λ t, idOf t ≠ Ok id) l → Forall (λ t, ∃ x, idOf t = Ok x) l →
  Forall (λ t, sameId id t = Ok false) l.
Proof.
  intros H1 H2. induction H1 as [|t l Ht _ IH]; [constructor|].
  apply Forall_cons in H2 as [[x Hx] H2]. constructor; [|by apply IH].
  apply sameId_Ok. exists x. split; [done|].
  destruct (strictEquals x id) eqn:E; [|done].
  apply strictEquals_true in E as [-> _]. done.
Qed.

Lemma dropById_inv id l l' :
  dropById id l = Ok l' →
  Forall (λ t, ∃ x, idOf t = Ok x) l ∧ l' = List.filter (λ t, negb (matches id t)) l.
Proof.
  intros [Hall ->]%filterM_inv. split.
  - eapply Forall_impl; [exact Hall|]. intros t [b Hb]. cbv beta in Hb.
    destruct (idOf t) as [x|e]; [by eauto|done].
  - induction Hall as [|t l [b Hb] _ IH]; [done|]. cbn. rewrite IH.
    replace (holds _ t) with (negb (matches id t)); [done|].
    unfold matches, holds, sameId. by destruct (idOf t) as [x|e].
Qed.

Lemma dropById_Ok id l :
  Forall (λ t, ∃ x, idOf t = Ok x) l →
  dropById id l = Ok (List.filter (λ t, negb (matches id t)) l).
Proof.
  intros Hall. destruct (dropById id l) as [l'|e] eqn:E.
  - by apply dropById_inv in E as [_ ->].
  - exfalso. unfold dropById in E. rewrite filterM_Ok in E; [done|].
    eapply Forall_impl; [exact Hall|]. intros t [x ->]. by eexists.
Qed.

(** C4. When the id argument is read as a number that is the id of no
    stored task, update, delete, mark-in-progress and mark-done end with exit
    code 1 and one error line on standard error (after the warning of a
    failed load, if any), write nothing, and leave the data file, hence the
    collection, as it was.  The error line is the not-found message, unless
    reading the id of some stored value throws, in which case it is the
    report of that exception.  The id of a stored task is what [Number]
    makes of its [id] field, and the id argument what [parseInt] reads:
    both are doubles. *)
Theorem unknown_id_aborts command arg0 rest now d id :
  command ∈ addressing → (command = "update" → rest ≠ []) →
  parseInt arg0 10 = id → id ≠ NaN →
  Forall (λ t, idOf t ≠ Ok id) (stored d) →
  let c := run (command :: arg0 :: rest) now d in
  exitCode c = 1%Z ∧ after c = d ∧ writes (output c) = [] ∧
  (∃ m, output c = loadWarning d ++ [Stderr m] ∧
        (m = NotFound id ∨ ∃ e, m = Uncaught e)) ∧
  (Forall (λ t, ∃ x, idOf t = Ok x) (stored d) →
   output c = loadWarning d ++ [Stderr (NotFound id)]).
Proof.
  intros Hc Harity Hid Hnum Hmiss. cbn zeta.
  assert (isNaN id = false) as Hnan by (by apply isNaN_false).
  assert (∀ m, (m = NotFound id ∨ ∃ e, m = Uncaught e) →
          (Forall (λ t, ∃ x, idOf t = Ok x) (stored d) → m = NotFound id) →
          exitCode (failed d m) = 1%Z ∧ after (failed d m) = d ∧
          writes (output (failed d m)) = [] ∧
          (∃ m', output (failed d m) = loadWarning d ++ [Stderr m'] ∧
                 (m' = NotFound id ∨ ∃ e, m' = Uncaught e)) ∧
          (Forall (λ t, ∃ x, idOf t = Ok x) (stored d) →
           output (failed d m) = loadWarning d ++ [Stderr (NotFound id)])) as Hfail.
  { intros m Hm Hall. destruct (failed_inert d m) as (Hx & Ha & Hw).
    repeat split; [done..| |].
    - by exists m.
    - intros Hok. by rewrite (Hall Hok). }
  assert (∀ k v ok, exitCode (touch id k v ok now d) = 1%Z ∧
            after (touch id k v ok now d) = d ∧
            writes (output (touch id k v ok now d)) = [] ∧
            (∃ m, output (touch id k v ok now d) = loadWarning d ++ [Stderr m] ∧
                  (m = NotFound id ∨ ∃ e, m = Uncaught e)) ∧
            (Forall (λ t, ∃ x, idOf t = Ok x) (stored d) →
             output (touch id k v ok now d) =
               loadWarning d ++ [Stderr (NotFound id)])) as Htouch.
  { intros k v ok. unfold touch.
    destruct (findIndex_no_hit (sameId id) (stored d) (sameId_no_hit _ _ Hmiss))
      as [E|[e E]]; unfold findById; fold (sameId id); rewrite E.
    - apply Hfail; [by left|done].
    - apply Hfail; [by eauto|]. intros Hall.
      pose proof (sameId_all_miss id _ Hmiss Hall) as Hnone%findIndex_None. congruence. }
  apply list_elem_of_In in Hc. cbn in Hc.
  destruct Hc as [<-|[<-|[<-|[<-|[]]]]].
  - destruct rest as [|a1 rest]; [by destruct Harity|].
    rewrite run_update, Hid. cbn zeta. rewrite Hnan. apply Htouch.
  - rewrite run_delete, Hid. cbn zeta. rewrite Hnan.
    destruct (dropById id (stored d)) as [l'|e] eqn:E.
    + apply dropById_inv in E as [Hall ->].
      rewrite filter_all.
      2:{ eapply Forall_impl; [exact Hmiss|]. intros t Ht. cbv beta.
          destruct (matches id t) eqn:Em; [|done]. by apply matches_idOf in Em as [? _]. }
      rewrite bool_decide_eq_true_2 by done. apply Hfail; [by left|done].
    + apply Hfail; [by eauto|]. intros Hall. by rewrite dropById_Ok in E.
  - rewrite (run_mark _ "in-progress") by set_solver. rewrite Hid. cbn zeta.
    rewrite Hnan. apply Htouch.
  - rewrite (run_mark _ "done") by set_solver. rewrite Hid. cbn zeta.
    rewrite Hnan. apply Htouch.
Qed.

(** C4, on scenario 6: mark-done 99 when no task has id 99. *)
Lemma unknown_id_aborts_witness :
  let c := run ["mark-done"; "99"] 1700000000005 oneTask in
  exitCode c = 1%Z ∧ after c = oneTask ∧ writes (output c) = [] ∧
  output c = [Stderr (NotFound (Int 99))].
Proof.
  assert ("mark-done" ∈ addressing) as Hc by (repeat constructor).
  assert ("mark-done" = "update" → [] ≠ @nil string) as Harity by discriminate.
  assert (Int 99 ≠ NaN) as Hnum by discriminate.
  assert (Forall (λ t, idOf t ≠ Ok (Int 99)) (stored oneTask)) as Hmiss.
  { evaluate (stored oneTask). repeat constructor. vm_compute. discriminate. }
  assert (Forall (λ t, ∃ x, idOf t = Ok x) (stored oneTask)) as Hall.
  { evaluate (stored oneTask). repeat constructor. eexists. vm_compute. reflexivity. }
  destruct (unknown_id_aborts "mark-done" "99" [] 1700000000005 oneTask (Int 99)
              Hc Harity eq_refl Hnum Hmiss) as (Hx & Ha & Hw & _ & Hout).
  split; [exact Hx|]. split; [exact Ha|]. split; [exact Hw|exact (Hout Hall)].
Defined.









End Addressing.

(** ** From one invocation to the next *)
Module Lifecycle.
Import Text Num Json Proc TaskCli Notions Handlers Search Lookup Persistence Arguments Addressing.

Lemma saved_effect argv now d l' ok :
  change argv now (stored d) l' → effectOn argv now d (after (saved d l' ok)).
Proof.
  intros Hch. unfold saved. destruct (writeError d) eqn:Hw; [by left|].
  right. split; [done|]. by exists l'.
Qed.

Lemma run_effect argv now d : effectOn argv now d (after (run argv now d)).
Proof.
  destruct (decide (head argv ∈ Some <$>
    ["add"; "update"; "delete"; "mark-in-progress"; "mark-done"; "list"])) as [Hc|Hc].
  2:{ left. by apply run_other. }
  destruct argv as [|command args]; [by apply list_elem_of_In in Hc; cbn in Hc; intuition|].
  cbn in Hc. apply list_elem_of_In in Hc. cbn in Hc.
  assert (∀ arg0 rest k v,
            args = arg0 :: rest → target command rest = Some (k, v) →
            effectOn (command :: args) now d (after (run (command :: args) now d)))
    as Htouch.
  { intros arg0 rest k v -> Ht.
    destruct (isNaN (parseInt arg0 10)) eqn:E.
    - left. unfold target in Ht. repeat case_decide; subst; try done.
      + destruct rest; [done|]. rewrite run_update. cbn zeta. by rewrite E.
      + rewrite (run_mark _ "in-progress") by set_solver. cbn zeta. by rewrite E.
      + rewrite (run_mark _ "done") by set_solver. cbn zeta. by rewrite E.
    - destruct (run_touches command arg0 rest now d k v Ht E) as [ok ->].
      destruct (findById (parseInt arg0 10) (stored d)) as [[i|]|e] eqn:Hf;
        [|unfold touch; rewrite Hf; by left..].
      destruct (touch_found _ k v ok now d i Hf) as (m & Hm & _ & ->).
      apply saved_effect. by eapply Rewritten. }
  destruct Hc as [[= <-]|[[= <-]|[[= <-]|[[= <-]|[[= <-]|[[= <-]|[]]]]]]].
  - destruct args as [|name rest]; [by left|].
    rewrite run_add. destruct (getNextId (stored d)) as [id|e] eqn:E; [|by left].
    apply saved_effect. by eapply Appended.
  - destruct args as [|a0 [|a1 rest]]; [by left; rewrite run_update_usage by (cbn; lia)..|].
    by eapply Htouch.
  - destruct args as [|a0 rest]; [by left|].
    rewrite run_delete. cbn zeta.
    destruct (isNaN (parseInt a0 10)) eqn:E; [by left|].
    destruct (dropById (parseInt a0 10) (stored d)) as [l'|e] eqn:Hd; [|by left].
    case_bool_decide; [by left|].
    apply dropById_inv in Hd as [Hall ->].
    apply saved_effect. by eapply Removed.
  - destruct args as [|a0 rest]; [by left; rewrite (run_mark_usage _ "in-progress") by set_solver|].
    by eapply Htouch.
  - destruct args as [|a0 rest]; [by left; rewrite (run_mark_usage _ "done") by set_solver|].
    by eapply Htouch.
  - left. apply list_inert.
Qed.

Lemma newTask_fields id name description now :
  Get (newTask id name description now) "id" = Ok (Some (ofNumber id)) ∧
  Get (newTask id name description now) "name" = Ok (Some (JStr name)) ∧
  Get (newTask id name description now) "description" = Ok (Some (JStr description)) ∧
  Get (newTask id name description now) "status" = Ok (Some (JStr "todo")) ∧
  Get (newTask id name description now) "createdAt" = Ok (Some (JStr now)) ∧
  Get (newTask id name description now) "updatedAt" = Ok (Some (JStr now)).
Proof. repeat split; vm_compute; reflexivity. Qed.

(** A property of single tasks that new tasks have and rewriting keeps is
    kept by every change. *)
Lemma change_Forall (P : json → Prop) argv now l l' :
  change argv now l l' →
  (∀ id name description, P (newTask id name description (toISOString now))) →
  (∀ m k v command rest,
     target command rest = Some (k, v) → P (JObj m) → P (amended m k v now)) →
  Forall P l → Forall P l'.
Proof.
  intros Hch Hnew Hrw Hl. destruct Hch as [id name rest _ _|arg0 rest n _ _ _
                                          |command arg0 rest n i m k v _ Ht _ _ Hm].
  - apply Forall_app. split; [done|]. constructor; [apply Hnew|constructor].
  - rewrite Forall_forall in Hl |- *. intros t Ht%list_elem_of_In.
    apply List.filter_In in Ht as [Ht%list_elem_of_In _]. by apply Hl.
  - apply Forall_insert; [done|]. eapply Hrw; [done|].
    rewrite Forall_forall in Hl. apply Hl. by eapply list_elem_of_lookup_2.
Qed.

(** *** Ids *)

Lemma foldl_max_spec z r :
  foldl Z.max z r ∈ z :: r ∧ Forall (λ x, x ≤ foldl Z.max z r)%Z (z :: r).
Proof.
  revert z. induction r as [|y r IH]; intros z; cbn.
  - split; [by left|]. by repeat constructor.
  - destruct (IH (Z.max z y)) as [Hin Hall].
    apply Forall_cons in Hall as [Hzy Hall]. split.
    + apply list_elem_of_In in Hin. cbn in Hin. apply list_elem_of_In. cbn.
      destruct Hin as [Hin|Hin]; [|by auto]. rewrite <- Hin.
      destruct (Z.max_spec z y) as [[_ ->]|[_ ->]]; auto.
    + repeat constructor; [lia|lia|done].
Qed.

Lemma nextId_spec zs :
  Forall (λ z, 0 < z)%Z zs →
  (0 < nextId zs)%Z ∧ Forall (λ z, z < nextId zs)%Z zs ∧
  (zs = [] → nextId zs = 1%Z) ∧
  (∀ mx, mx ∈ zs → Forall (λ z, z ≤ mx)%Z zs → nextId zs = (mx + 1)%Z).
Proof.
  intros Hpos. destruct zs as [|z r]; cbn.
  - repeat split; [constructor|]. intros mx Hmx. by apply elem_of_nil in Hmx.
  - destruct (foldl_max_spec z r) as [Hin Hall].
    repeat split.
    + apply Forall_cons in Hpos as [Hz _]. apply Forall_cons in Hall as [Hle _]. lia.
    + eapply Forall_impl; [exact Hall|]. intros x Hx. cbv beta in *. lia.
    + done.
    + intros mx Hmx Hle. rewrite Forall_forall in Hall, Hle.
      specialize (Hall mx Hmx). specialize (Hle _ Hin). cbv beta in *. lia.
Qed.

Lemma getNextId_numbered l zs :
  Forall2 hasId l zs → Forall (λ z, 0 < z)%Z zs → getNextId l = Ok (Int (nextId zs)).
Proof.
  intros Hids Hpos. unfold getNextId.
  assert (mapM idOf l = Ok (Int <$> zs)) as ->.
  { induction Hids as [|t z l zs Ht _ IH]; [done|]. cbn.
    assert (idOf t = Ok (Int z)) as -> by (unfold idOf; by rewrite Ht).
    cbn. rewrite IH; [done|]. by apply Forall_cons in Hpos as [_ ?]. }
  cbn. assert (omap positiveInteger (Int <$> zs) = zs) as ->.
  { clear Hids. induction Hpos as [|z zs Hz _ IH]; [done|]. cbn.
    rewrite (proj2 (Z.ltb_lt 0 z) Hz). cbn. by rewrite IH. }
  by destruct zs.
Qed.

Lemma numbered_filter (f : json → bool) l zs :
  numbered l zs → ∃ zs', numbered (List.filter f l) zs' ∧ ∀ z, z ∈ zs' → z ∈ zs.
Proof.
  intros (Hids & Hpos & Hsort).
  induction Hids as [|t z l zs Ht _ IH].
  - exists []. repeat split; [constructor..|done].
  - apply Forall_cons in Hpos as [Hz Hpos].
    apply StronglySorted_cons in Hsort as [Hlt Hsort].
    destruct (IH Hpos Hsort) as (zs' & (Hids' & Hpos' & Hsort') & Hsub).
    cbn. destruct (f t).
    + exists (z :: zs'). repeat split.
      * by constructor.
      * by constructor.
      * apply StronglySorted_cons. split; [|done].
        rewrite Forall_forall in Hlt |- *. intros x Hx. apply Hlt. by apply Hsub.
      * intros x [->|Hx]%elem_of_cons; [by left|]. right. by apply Hsub.
    + exists zs'. repeat split; [done..|]. intros x Hx. right. by apply Hsub.
Qed.

(** Every change keeps the ids numbered; an appended task gets [nextId]. *)
Lemma change_numbered argv now l l' zs :
  change argv now l l' → numbered l zs → ∃ zs', numbered l' zs'.
Proof.
  intros Hch Hn. pose proof Hn as (Hids & Hpos & Hsort).
  destruct Hch as [id name rest _ Hid|arg0 rest n _ _ _
                  |command arg0 rest n i m k v _ Ht _ _ Hm].
  - rewrite (getNextId_numbered l zs Hids Hpos) in Hid. injection Hid as <-.
    destruct (nextId_spec zs Hpos) as (Hnext & Hlt & _).
    exists (zs ++ [nextId zs]). repeat split.
    + apply Forall2_app; [done|]. constructor; [|constructor].
      apply newTask_fields.
    + apply Forall_app. split; [done|]. by repeat constructor.
    + apply StronglySorted_app_2; [|done|by repeat constructor].
      intros x1 x2 Hx1 ->%list_elem_of_singleton.
      rewrite Forall_forall in Hlt. by apply Hlt.
  - destruct (numbered_filter (λ t, negb (matches n t)) l zs Hn) as (zs' & ? & _).
    by exists zs'.
  - exists zs. repeat split; [|done..].
    destruct (Forall2_lookup_l _ _ _ _ _ Hids Hm) as (z & Hz & Hzm).
    rewrite <- (list_insert_id zs i z Hz). apply Forall2_insert; [done|].
    unfold hasId in *. destruct (target_field _ _ _ _ Ht) as [Hk _].
    destruct (amended_lookup m k v now "id") as (_ & _ & _ & ->); done.
Qed.

(** *** Sessions *)

Lemma finally_cons i invs d :
  finally (i :: invs) d = finally invs (after (run (argv i) (time i) d)).
Proof. reflexivity. Qed.

(** What is true of the data file at first and kept by every invocation is
    true at the end of every session. *)
Lemma session_invariant (I : disk → Prop) :
  (∀ argv now d, I d → I (after (run argv now d))) →
  ∀ invs d, I d → I (finally invs d).
Proof.
  intros Hstep invs. induction invs as [|i invs IH]; intros d Hd; [done|].
  rewrite finally_cons. apply IH, Hstep, Hd.
Qed.

Lemma effect_plain argv now d d' : effectOn argv now d d' → plain d → plain d'.
Proof. intros [->|(_ & l' & _ & ->)] Hd; done. Qed.

Lemma run_wellNumbered argv now d : wellNumbered d → wellNumbered (after (run argv now d)).
Proof.
  intros [Hp [zs Hn]]. pose proof (run_effect argv now d) as He.
  split; [by eapply effect_plain|].
  destruct He as [->|(_ & l' & Hch & ->)]; [by exists zs|].
  by eapply change_numbered.
Qed.

Lemma fresh_wellNumbered : wellNumbered fresh.
Proof. split; [done|]. exists []. repeat split; constructor. Qed.

(** C1, as the code has it.  At any point of a session begun on a fresh
    installation (adds, deletes, or any other invocations), the stored ids
    are positive integers, strictly increasing in stored order, which is the
    order of creation; and an add then succeeds, appends its task, and gives
    it the id [max + 1] of the ids stored at that moment (1 when there is
    none), which is positive and larger than each of them.  The id is thus
    new among the stored tasks; whether it was held by a task deleted
    earlier is not the program's concern. *)
Theorem add_assigns_largest_id_plus_one invs name rest now :
  let d := finally invs fresh in
  let c := run ("add" :: name :: rest) now d in
  ∃ zs, Forall2 hasId (stored d) zs ∧
        Forall (λ z, 0 < z)%Z zs ∧ StronglySorted Z.lt zs ∧
        exitCode c = 0%Z ∧
        output c = [Write (JArr (stored (after c))); Stdout (Added (Int (nextId zs)))] ∧
        (∃ task, stored (after c) = stored d ++ [task] ∧ hasId task (nextId zs)) ∧
        (0 < nextId zs)%Z ∧
        Forall (λ z, z < nextId zs)%Z zs ∧
        (zs = [] → nextId zs = 1%Z) ∧
        (∀ mx, mx ∈ zs → Forall (λ z, z ≤ mx)%Z zs → nextId zs = (mx + 1)%Z).
Proof.
  cbn zeta.
  destruct (session_invariant wellNumbered run_wellNumbered invs fresh fresh_wellNumbered)
    as [[Hw Hl] (zs & Hids & Hpos & Hsort)].
  exists zs. destruct (nextId_spec zs Hpos) as (H1 & H2 & H3 & H4).
  rewrite run_add, (getNextId_numbered _ zs Hids Hpos). cbn zeta.
  unfold saved. rewrite Hw, Hl. cbn [exitCode output after stored file app].
  repeat split; [done..| |done|done|done|done].
  eexists. split; [done|]. apply newTask_fields.
Qed.

(** C1 as stated fails: after "Task B" (id 2) is deleted, the next add
    assigns id 2 again. *)
Lemma deleted_id_is_assigned_again :
  assignedIds (session reuseAfterDelete fresh) = [Int 1; Int 2; Int 2] ∧
  ¬ NoDup (assignedIds (session reuseAfterDelete fresh)).
Proof.
  assert (assignedIds (session reuseAfterDelete fresh) = [Int 1; Int 2; Int 2]) as E
    by (vm_compute; reflexivity).
  split; [exact E|]. rewrite E. intros Hnd.
  apply NoDup_cons in Hnd as [_ Hnd]. apply NoDup_cons in Hnd as [Hin _].
  apply Hin. by left.
Qed.

(** *** Names *)

Lemma target_cases command rest k v :
  target command rest = Some (k, v) →
  k = "description" ∨ (k = "status" ∧ v ∈ ["in-progress"; "done"]).
Proof.
  unfold target. repeat case_decide; try done; [destruct rest; [done|]|..];
    intros [= <- <-]; [by left|right; split; [done|set_solver]..].
Qed.

(** A rewritten task keeps every field but the targeted one and
    [updatedAt]. *)
Lemma amended_keeps command rest m k v now k' :
  target command rest = Some (k, v) →
  k' ≠ "description" → k' ≠ "status" → k' ≠ "updatedAt" →
  Get (amended m k v now) k' = Get (JObj m) k'.
Proof.
  intros Ht H1 H2 H3.
  destruct (amended_lookup m k v now k') as (_ & _ & _ & Hsame).
  apply Hsame; [|done]. by destruct (target_cases _ _ _ _ Ht) as [->|[-> _]].
Qed.





(** *** Status and timestamps *)

Lemma lessOrEqual_refl s : lessOrEqual s s.
Proof.
  unfold lessOrEqual, String.leb. induction s as [|a s IH]; [done|]. cbn.
  change (Ascii.compare a a) with (N.compare (N_of_ascii a) (N_of_ascii a)).
  by rewrite N.compare_refl.
Qed.

Lemma lessOrEqual_trans s t u : lessOrEqual s t → lessOrEqual t u → lessOrEqual s u.
Proof.
  unfold lessOrEqual, String.leb. revert t u.
  induction s as [|a s IH]; intros [|b t] [|c u]; cbn; try done.
  change (Ascii.compare a b) with (N.compare (N_of_ascii a) (N_of_ascii b)).
  change (Ascii.compare b c) with (N.compare (N_of_ascii b) (N_of_ascii c)).
  change (Ascii.compare a c) with (N.compare (N_of_ascii a) (N_of_ascii c)).
  destruct (N.compare_spec (N_of_ascii a) (N_of_ascii b)) as [Hab|Hab|Hab];
    destruct (N.compare_spec (N_of_ascii b) (N_of_ascii c)) as [Hbc|Hbc|Hbc];
    try done;
    destruct (N.compare_spec (N_of_ascii a) (N_of_ascii c)) as [Hac|Hac|Hac];
    try done; try lia.
  apply IH.
Qed.

Lemma notAfter_later T T' t : lessOrEqual T T' → notAfter T t → notAfter T' t.
Proof.
  intros HT (c & u & Hc & Hu & Hcu & HuT). exists c, u.
  repeat split; [done..|]. by eapply lessOrEqual_trans.
Qed.

Lemma change_validStatus argv now l l' :
  change argv now l l' → Forall validStatus l → Forall validStatus l'.
Proof.
  intros Hch. apply (change_Forall _ _ _ _ _ Hch).
  - intros id name description. exists "todo". split; [apply newTask_fields|].
    unfold allowed. set_solver.
  - intros m k v command rest Ht (s & Hs & Hin).
    destruct (target_cases _ _ _ _ Ht) as [->|[-> Hv]].
    + exists s. split; [|done].
      by destruct (amended_lookup m "description" v now "status") as (_ & _ & _ & ->).
    + exists v. split; [|unfold allowed; set_solver].
      by destruct (amended_lookup m "status" v now "status") as (_ & _ & -> & _).
Qed.

Lemma change_notAfter argv now l l' :
  change argv now l l' →
  Forall (notAfter (toISOString now)) l → Forall (notAfter (toISOString now)) l'.
Proof.
  intros Hch. apply (change_Forall _ _ _ _ _ Hch).
  - intros id name description. exists (toISOString now), (toISOString now).
    repeat split; try apply newTask_fields; apply lessOrEqual_refl.
  - intros m k v command rest Ht (c & u & Hc & Hu & Hcu & HuT).
    exists c, (toISOString now). repeat split.
    + rewrite <- Hc. apply (amended_keeps _ _ _ _ _ _ _ Ht); done.
    + apply amended_lookup. exact "id".
    + by eapply lessOrEqual_trans.
    + apply lessOrEqual_refl.
Qed.

Lemma run_wellFormed argv now d : wellFormed d → wellFormed (after (run argv now d)).
Proof.
  intros [Hn Hs]. split; [by apply run_wellNumbered|].
  destruct (run_effect argv now d) as [->|(_ & l' & Hch & ->)]; [done|].
  by eapply change_validStatus.
Qed.

Lemma session_notAfter invs d T :
  Forall (notAfter T) (stored d) → Sorted lessOrEqual (T :: (stamp <$> invs)) →
  Forall timeOrdered (stored (finally invs d)).
Proof.
  revert d T. induction invs as [|i invs IH]; intros d T Hd Hsorted.
  - eapply Forall_impl; [exact Hd|]. intros t (c & u & Hc & Hu & Hcu & _).
    by exists c, u.
  - rewrite finally_cons. cbn [fmap list_fmap] in Hsorted.
    apply Sorted_inv in Hsorted as [Hsorted Hhd]. apply HdRel_inv in Hhd.
    apply (IH _ (stamp i)); [|done].
    assert (Forall (notAfter (stamp i)) (stored d)) as Hd'.
    { eapply Forall_impl; [exact Hd|]. intros t. by apply notAfter_later. }
    destruct (run_effect (argv i) (time i) d) as [->|(_ & l' & Hch & ->)]; [done|].
    by eapply change_notAfter.
Qed.

(** While the timestamps read never decrease, no task is updated before it
    was created. *)
Lemma steady_timeOrdered invs :
  steady invs → Forall timeOrdered (stored (finally invs fresh)).
Proof.
  intros Hsteady. destruct invs as [|i invs]; [constructor|].
  apply (session_notAfter (i :: invs) fresh (stamp i)); [constructor|].
  constructor; [exact Hsteady|]. constructor. apply lessOrEqual_refl.
Qed.

(** C8, as the code has it.  In the collection that any session begun on a
    fresh installation leaves, the ids are distinct positive integers and
    every status is one of todo, in-progress, done.  If moreover the
    timestamps that the invocations read from the clock never decrease, from
    one invocation to the next, then every task has
    [updatedAt >= createdAt]. *)
Theorem session_keeps_collection_well_formed invs :
  let l := stored (finally invs fresh) in
  (∃ zs, Forall2 hasId l zs ∧ Forall (λ z, 0 < z)%Z zs ∧ NoDup zs) ∧
  Forall validStatus l ∧
  (steady invs → Forall timeOrdered l).
Proof.
  cbn zeta.
  assert (wellFormed fresh) as Hfresh.
  { split; [apply fresh_wellNumbered|constructor]. }
  destruct (session_invariant wellFormed run_wellFormed invs fresh Hfresh)
    as [[_ (zs & Hids & Hpos & Hsort)] Hstatus].
  repeat split; [|done|].
  - exists zs. repeat split; [done..|].
    clear Hids Hpos. induction Hsort as [|z zs _ IH Hlt]; [constructor|].
    apply NoDup_cons. split; [|done]. intros Hin.
    rewrite Forall_forall in Hlt. specialize (Hlt z Hin). lia.
  - apply steady_timeOrdered.
Qed.

(** C8, on a session whose clock runs forward. *)
Lemma session_keeps_collection_well_formed_witness :
  Forall timeOrdered (stored (finally steadySession fresh)).
Proof.
  apply (session_keeps_collection_well_formed steadySession).
  unfold steady. evaluate (stamp <$> steadySession).
  repeat constructor; vm_compute; reflexivity.
Defined.

(** C8 as stated fails when the clock is set back between two invocations:
    the task added at 22:14:20 and marked done at what the clock then calls
    22:13:20 has an [updatedAt] before its [createdAt]. *)
Lemma clock_set_back_breaks_time_order :
  (∃ t, stored (finally clockSetBack fresh) = [t] ∧
        Get t "createdAt" = Ok (Some (JStr "2023-11-14T22:14:20.000Z")) ∧
        Get t "updatedAt" = Ok (Some (JStr "2023-11-14T22:13:20.000Z"))) ∧
  ¬ Forall timeOrdered (stored (finally clockSetBack fresh)).
Proof.
  assert (∃ t, stored (finally clockSetBack fresh) = [t] ∧
        Get t "createdAt" = Ok (Some (JStr "2023-11-14T22:14:20.000Z")) ∧
        Get t "updatedAt" = Ok (Some (JStr "2023-11-14T22:13:20.000Z"))) as Ht.
  { evaluate (stored (finally clockSetBack fresh)).
    eexists. split; [reflexivity|]. split; vm_compute; reflexivity. }
  split; [exact Ht|]. destruct Ht as (t & -> & Hc & Hu).
  intros [(c & u & Hc' & Hu' & Hcu) _]%Forall_cons.
  rewrite Hc in Hc'. rewrite Hu in Hu'. injection Hc' as <-. injection Hu' as <-.
  vm_compute in Hcu. discriminate.
Qed.

End Lifecycle.

(** ** Timestamps in the order of time *)
Module Calendar.
Import Text Num Json Proc TaskCli Notions Lookup Lifecycle.

Lemma compare_cons c s t : String.compare (String c s) (String c t) = String.compare s t.
Proof.
  cbn. change (Ascii.compare c c) with (N.compare (N_of_ascii c) (N_of_ascii c)).
  by rewrite N.compare_refl.
Qed.

Lemma compare_app_same s t1 t2 :
  String.compare (s +:+ t1) (s +:+ t2) = String.compare t1 t2.
Proof.
  induction s as [|c s IH]; [done|].
  change (String c s +:+ t1) with (String c (s +:+ t1)).
  change (String c s +:+ t2) with (String c (s +:+ t2)).
  by rewrite compare_cons.
Qed.

Lemma compare_app_lt s1 s2 t1 t2 :
  String.length s1 = String.length s2 → String.compare s1 s2 = Lt →
  String.compare (s1 +:+ t1) (s2 +:+ t2) = Lt.
Proof.
  revert s2. induction s1 as [|a s1 IH]; intros [|b s2]; try done.
  change (String a s1 +:+ t1) with (String a (s1 +:+ t1)).
  change (String b s2 +:+ t2) with (String b (s2 +:+ t2)).
  cbn [String.length String.compare]. intros [= Hlen].
  destruct (Ascii.compare a b); [by apply IH|done..].
Qed.

Lemma compare_lt_trans s t u :
  String.compare s t = Lt → String.compare t u = Lt → String.compare s u = Lt.
Proof.
  revert t u. induction s as [|a s IH]; intros [|b t] [|c u]; cbn; try done.
  change (Ascii.compare a b) with (N.compare (N_of_ascii a) (N_of_ascii b)).
  change (Ascii.compare b c) with (N.compare (N_of_ascii b) (N_of_ascii c)).
  change (Ascii.compare a c) with (N.compare (N_of_ascii a) (N_of_ascii c)).
  destruct (N.compare_spec (N_of_ascii a) (N_of_ascii b)) as [Hab|Hab|Hab];
    destruct (N.compare_spec (N_of_ascii b) (N_of_ascii c)) as [Hbc|Hbc|Hbc];
    try done;
    destruct (N.compare_spec (N_of_ascii a) (N_of_ascii c)) as [Hac|Hac|Hac];
    try done; try lia.
  apply IH.
Qed.

Lemma allFrom_spec P lo bits :
  allFrom P lo bits = true → ∀ z, (lo ≤ z < lo + 2 ^ Z.of_nat bits)%Z → P z = true.
Proof.
  revert lo. induction bits as [|b IH]; intros lo H z Hz.
  - cbn in *. by replace z with lo by lia.
  - cbn [allFrom] in H. apply andb_prop in H as [H1 H2].
    rewrite Nat2Z.inj_succ, Z.pow_succ_r in Hz by lia.
    destruct (decide (z < lo + 2 ^ Z.of_nat b)%Z).
    + apply (IH lo); [done|lia].
    + apply (IH (lo + 2 ^ Z.of_nat b)%Z); [done|lia].
Qed.

Lemma pad_length n N bits z :
  padsOk n N bits → (0 ≤ z < N)%Z → String.length (pad n z) = n.
Proof.
  intros [Hall Hb] Hz. pose proof (allFrom_spec _ _ _ Hall z ltac:(lia)) as H.
  unfold padOk in H. apply orb_prop in H as [H|H]; [apply Z.leb_le in H; lia|].
  apply andb_prop in H as [H _]. by apply Nat.eqb_eq.
Qed.

Lemma pad_lt n N bits a b :
  padsOk n N bits → (0 ≤ a)%Z → (a < b)%Z → (b < N)%Z →
  String.compare (pad n a) (pad n b) = Lt.
Proof.
  intros Hok Ha Hab Hb.
  assert (∀ z, (0 ≤ z)%Z → (z + 1 < N)%Z →
               String.compare (pad n z) (pad n (z + 1)) = Lt) as Hstep.
  { intros z Hz Hz1. destruct Hok as [Hall HN].
    pose proof (allFrom_spec _ _ _ Hall z ltac:(lia)) as H.
    unfold padOk in H. apply orb_prop in H as [H|H]; [apply Z.leb_le in H; lia|].
    apply andb_prop in H as [_ H].
    apply orb_prop in H as [H|H]; [apply Z.leb_le in H; lia|].
    unfold String.ltb in H. by destruct (String.compare _ _). }
  replace b with (a + 1 + Z.of_nat (Z.to_nat (b - a - 1)))%Z in * by lia.
  induction (Z.to_nat (b - a - 1)) as [|k IH].
  - replace (a + 1 + Z.of_nat 0)%Z with (a + 1)%Z in * by lia. apply Hstep; lia.
  - eapply compare_lt_trans; [apply IH; lia|].
    replace (a + 1 + Z.of_nat (S k))%Z with (a + 1 + Z.of_nat k + 1)%Z by lia.
    apply Hstep; lia.
Qed.

Lemma pads2 : padsOk 2 100 7.
Proof. split; [vm_compute; reflexivity|lia]. Qed.
Lemma pads3 : padsOk 3 1000 10.
Proof. split; [vm_compute; reflexivity|lia]. Qed.
Lemma pads4 : padsOk 4 10000 14.
Proof. split; [vm_compute; reflexivity|lia]. Qed.

(** Two texts that begin with a field compare as their fields do, and as
    what follows the fields when the fields are equal. *)
Lemma field_le n N bits a b ta tb :
  padsOk n N bits → (0 ≤ a < N)%Z → (0 ≤ b < N)%Z →
  (a < b)%Z ∨ (a = b ∧ lessOrEqual ta tb) →
  lessOrEqual (pad n a +:+ ta) (pad n b +:+ tb).
Proof.
  intros Hok Ha Hb [Hlt|[-> Hle]]; unfold lessOrEqual, String.leb in *.
  - rewrite (compare_app_lt (pad n a) (pad n b)); [done| |].
    + by rewrite !(pad_length n N bits) by done.
    + apply (pad_lt n N bits); [done|lia..].
  - by rewrite compare_app_same.
Qed.

Lemma separator_le c ta tb :
  lessOrEqual ta tb → lessOrEqual (String c ta) (String c tb).
Proof. unfold lessOrEqual, String.leb. by rewrite compare_cons. Qed.

Lemma civil_era days :
  civilFromDays days =
    let era := ((days + 719468) / 146097)%Z in
    let '(y, m, d) := ofEra ((days + 719468) mod 146097) in
    ((y + 400 * era)%Z, m, d).
Proof.
  unfold ofEra, civilFromDays. cbn zeta.
  set (z := (days + 719468)%Z).
  replace (z mod 146097 - 719468 + 719468)%Z with (z mod 146097)%Z by lia.
  rewrite (Z.div_small (z mod 146097) 146097) by (apply Z.mod_pos_bound; lia).
  replace (z mod 146097 - 0 * 146097)%Z with (z mod 146097)%Z by lia.
  replace (z - z / 146097 * 146097)%Z with (z mod 146097)%Z
    by (rewrite Z.mod_eq by lia; lia).
  f_equal. f_equal. lia.
Qed.

Lemma era_checked : allFrom eraOk 0 18 = true.
Proof. vm_cast_no_check (eq_refl true). Qed.

Lemma era_fields doe :
  (0 ≤ doe < 146097)%Z →
  let '(y, m, d) := ofEra doe in (0 ≤ y ≤ 400 ∧ 1 ≤ m ≤ 12 ∧ 1 ≤ d ≤ 31)%Z.
Proof.
  intros H. pose proof (allFrom_spec _ _ _ era_checked doe ltac:(cbn; lia)) as Hd.
  unfold eraOk in Hd. apply orb_prop in Hd as [Hd|Hd]; [apply Z.leb_le in Hd; lia|].
  destruct (ofEra doe) as [[y m] d]. apply andb_prop in Hd as [Hd _]. lia.
Qed.

Lemma era_step doe :
  (0 ≤ doe < 146096)%Z → (eraKey doe < eraKey (doe + 1))%Z.
Proof.
  intros H. pose proof (allFrom_spec _ _ _ era_checked doe ltac:(cbn; lia)) as Hd.
  unfold eraOk in Hd. apply orb_prop in Hd as [Hd|Hd]; [apply Z.leb_le in Hd; lia|].
  unfold eraKey at 1. destruct (ofEra doe) as [[y m] d].
  apply andb_prop in Hd as [_ Hd].
  apply orb_prop in Hd as [Hd|Hd]; [apply Z.leb_le in Hd; lia|]. lia.
Qed.

Lemma dateKey_era days :
  dateKey days =
    (eraKey ((days + 719468) mod 146097) + 4000000 * ((days + 719468) / 146097))%Z.
Proof.
  unfold dateKey, eraKey. rewrite civil_era. cbn zeta.
  destruct (ofEra _) as [[y m] d]. lia.
Qed.

Lemma dateKey_step days : (dateKey days < dateKey (days + 1))%Z.
Proof.
  rewrite !dateKey_era.
  set (z := (days + 719468)%Z). replace (days + 1 + 719468)%Z with (z + 1)%Z by lia.
  pose proof (Z.mod_pos_bound z 146097 ltac:(lia)) as Hr.
  pose proof (Z.div_mod z 146097 ltac:(lia)) as Hz.
  destruct (decide (z mod 146097 = 146095 + 1)%Z) as [Hlast|Hnot].
  - assert ((z + 1) mod 146097 = 0 ∧ (z + 1) / 146097 = z / 146097 + 1)%Z as [-> ->].
    { assert (z + 1 = 146097 * (z / 146097 + 1) + 0)%Z as E by lia.
      split.
      - symmetry. eapply Z.mod_unique_pos; [|exact E]. lia.
      - symmetry. eapply Z.div_unique_pos; [|exact E]. lia. }
    rewrite Hlast. change (eraKey (146095 + 1)) with 4000229%Z.
    change (eraKey 0) with 301%Z. lia.
  - assert ((z + 1) mod 146097 = z mod 146097 + 1 ∧ (z + 1) / 146097 = z / 146097)%Z
      as [-> ->].
    { assert (z + 1 = 146097 * (z / 146097) + (z mod 146097 + 1))%Z as E by lia.
      split.
      - symmetry. eapply Z.mod_unique_pos; [|exact E]. lia.
      - symmetry. eapply Z.div_unique_pos; [|exact E]. lia. }
    pose proof (era_step (z mod 146097) ltac:(lia)) as Hs. lia.
Qed.

Lemma dateKey_lt a b : (a < b)%Z → (dateKey a < dateKey b)%Z.
Proof.
  intros Hab. replace b with (a + 1 + Z.of_nat (Z.to_nat (b - a - 1)))%Z by lia.
  induction (Z.to_nat (b - a - 1)) as [|n IH].
  - replace (a + 1 + Z.of_nat 0)%Z with (a + 1)%Z by lia. apply dateKey_step.
  - replace (a + 1 + Z.of_nat (S n))%Z with (a + 1 + Z.of_nat n + 1)%Z by lia.
    pose proof (dateKey_step (a + 1 + Z.of_nat n)). lia.
Qed.

Lemma civil_fields days :
  let '(y, m, d) := civilFromDays days in (1 ≤ m ≤ 12 ∧ 1 ≤ d ≤ 31)%Z.
Proof.
  rewrite civil_era. cbn zeta.
  pose proof (Z.mod_pos_bound (days + 719468) 146097 ltac:(lia)) as Hr.
  pose proof (era_fields _ Hr) as Hf.
  destruct (ofEra _) as [[y m] d]. lia.
Qed.

Ltac divlia := Z.div_mod_to_equations; lia.

Lemma dateKey_inj a b : dateKey a = dateKey b → a = b.
Proof.
  intros E. destruct (Z.lt_trichotomy a b) as [H|[H|H]]; [|done|].
  - apply dateKey_lt in H. lia.
  - apply dateKey_lt in H. lia.
Qed.

Lemma year_in_range ms :
  inYears ms →
  let '(y, m, d) := civilFromDays (ms / 86400000) in
  (0 ≤ y ≤ 9999 ∧ 1 ≤ m ≤ 12 ∧ 1 ≤ d ≤ 31)%Z.
Proof.
  intros Hms. unfold inYears in Hms.
  assert (-719528 ≤ ms / 86400000 ≤ 2932896)%Z as Hd by divlia.
  pose proof (civil_fields (ms / 86400000)) as Hf.
  assert (101 ≤ dateKey (ms / 86400000) ≤ 99991231)%Z as Hk.
  { change 101%Z with (dateKey (-719528)).
    change 99991231%Z with (dateKey 2932896).
    destruct (decide (ms / 86400000 = -719528)%Z) as [->|?];
      [split; [lia|]; pose proof (dateKey_lt (-719528) 2932896); lia|].
    destruct (decide (ms / 86400000 = 2932896)%Z) as [->|?];
      [split; [|lia]; pose proof (dateKey_lt (-719528) 2932896); lia|].
    pose proof (dateKey_lt (-719528) (ms / 86400000)).
    pose proof (dateKey_lt (ms / 86400000) 2932896). lia. }
  unfold dateKey in Hk. destruct (civilFromDays _) as [[y m] d]. lia.
Qed.

Lemma toISOString_fields ms :
  inYears ms →
  let '(y, m, d) := civilFromDays (ms / 86400000) in
  let t := (ms mod 86400000)%Z in
  toISOString ms =
    pad 4 y +:+ "-" +:+ pad 2 m +:+ "-" +:+ pad 2 d +:+ "T" +:+
    pad 2 (t / 3600000) +:+ ":" +:+ pad 2 (t / 60000 mod 60) +:+ ":" +:+
    pad 2 (t / 1000 mod 60) +:+ "." +:+ pad 3 (t mod 1000) +:+ "Z".
Proof.
  intros Hms. pose proof (year_in_range ms Hms) as Hy. unfold toISOString.
  destruct (civilFromDays _) as [[y m] d]. cbn zeta.
  destruct Hy as ([Hy0 Hy1] & _).
  by rewrite (proj2 (Z.leb_le 0 y) Hy0), (proj2 (Z.leb_le y 9999) Hy1).
Qed.

(** Within the years 0 to 9999, later times print as larger timestamps. *)
Lemma toISOString_monotone a b :
  inYears a → inYears b → (a ≤ b)%Z → lessOrEqual (toISOString a) (toISOString b).
Proof.
  intros Ha Hb Hab.
  pose proof (toISOString_fields a Ha) as Ea. pose proof (toISOString_fields b Hb) as Eb.
  pose proof (year_in_range a Ha) as Ra. pose proof (year_in_range b Hb) as Rb.
  assert (a / 86400000 ≤ b / 86400000)%Z as Hdays by divlia.
  assert ((a / 86400000 < b / 86400000)%Z →
          (dateKey (a / 86400000) < dateKey (b / 86400000))%Z) as Hkey
    by apply dateKey_lt.
  assert ((a / 86400000 = b / 86400000)%Z → (a mod 86400000 ≤ b mod 86400000)%Z)
    as Htime by divlia.
  assert (0 ≤ a mod 86400000 < 86400000 ∧ 0 ≤ b mod 86400000 < 86400000)%Z
    as [Hta Htb] by divlia.
  assert (dateKey (a / 86400000) = dateKey (b / 86400000) →
          (a / 86400000 = b / 86400000)%Z) as Hinj by apply dateKey_inj.
  assert (dateKey (a / 86400000) ≤ dateKey (b / 86400000))%Z as Hle.
  { destruct (decide (a / 86400000 = b / 86400000)%Z) as [->|E]; lia. }
  unfold dateKey in Hkey, Hinj, Hle.
  destruct (civilFromDays (a / 86400000)) as [[ya ma] da].
  destruct (civilFromDays (b / 86400000)) as [[yb mb] db].
  cbn zeta in Ea, Eb. rewrite Ea, Eb. clear Ea Eb.
  set (ta := (a mod 86400000)%Z) in *. set (tb := (b mod 86400000)%Z) in *.
  apply (field_le 4 10000 14 _ _ _ _ pads4); [lia..|].
  destruct (decide (ya < yb)%Z) as [|Hy]; [by left|right]. split; [lia|].
  apply separator_le, (field_le 2 100 7 _ _ _ _ pads2); [lia..|].
  destruct (decide (ma < mb)%Z) as [|Hm]; [by left|right]. split; [lia|].
  apply separator_le, (field_le 2 100 7 _ _ _ _ pads2); [lia..|].
  destruct (decide (da < db)%Z) as [|Hd]; [by left|right]. split; [lia|].
  assert (ta ≤ tb)%Z as Ht by (apply Htime, Hinj; lia).
  clearbody ta tb. clear -Ht Hta Htb.
  apply separator_le, (field_le 2 100 7 _ _ _ _ pads2); [divlia..|].
  destruct (decide (ta / 3600000 < tb / 3600000)%Z) as [|Hh]; [by left|right].
  split; [divlia|].
  apply separator_le, (field_le 2 100 7 _ _ _ _ pads2); [divlia..|].
  destruct (decide (ta / 60000 mod 60 < tb / 60000 mod 60)%Z) as [|Hmi]; [by left|right].
  split; [divlia|].
  apply separator_le, (field_le 2 100 7 _ _ _ _ pads2); [divlia..|].
  destruct (decide (ta / 1000 mod 60 < tb / 1000 mod 60)%Z) as [|Hs]; [by left|right].
  split; [divlia|].
  apply separator_le, (field_le 3 1000 10 _ _ _ _ pads3); [divlia..|].
  destruct (decide (ta mod 1000 < tb mod 1000)%Z) as [|Hms]; [by left|right].
  split; [divlia|]. apply lessOrEqual_refl.
Qed.

(** A clock that shows the years 0 to 9999 and never steps back gives
    timestamps that never decrease. *)
Lemma forward_clock_steady invs :
  Forall inYears (time <$> invs) → Sorted Z.le (time <$> invs) → steady invs.
Proof.
  unfold steady. induction invs as [|i invs IH]; [constructor|].
  cbn [fmap list_fmap]. intros [Hi Hin]%Forall_cons [Hsorted Hhd]%Sorted_inv.
  constructor; [by apply IH|].
  destruct invs as [|j invs]; [constructor|]. constructor.
  cbn [fmap list_fmap] in Hin, Hhd.
  apply Forall_cons in Hin as [Hj _]. apply HdRel_inv in Hhd.
  by apply toISOString_monotone.
Qed.

(** With a clock that shows the years 0 to 9999 and never steps back from
    one invocation to the next, at every point of a session begun on a fresh
    installation every stored task has [updatedAt >= createdAt], the two
    timestamps compared as the strings they are. *)
Theorem forward_clock_timeOrdered invs :
  Forall inYears (time <$> invs) → Sorted Z.le (time <$> invs) →
  Forall timeOrdered (stored (finally invs fresh)).
Proof. intros Hin Hsorted. by apply steady_timeOrdered, forward_clock_steady. Qed.

Lemma forward_clock_timeOrdered_witness :
  Forall timeOrdered (stored (finally steadySession fresh)).
Proof.
  apply forward_clock_timeOrdered; evaluate (time <$> steadySession).
  - repeat constructor; unfold inYears; lia.
  - repeat constructor; lia.
Defined.

End Calendar.

(** ** The command line *)
Module Dispatch.
Import Text Num Json Proc TaskCli Notions Handlers.

(** [help], the empty command and no command at all print the help text on
    standard output and end with exit code 0; whatever follows on the command
    line is ignored, and the data file is neither read (a file that cannot be
    parsed draws no warning) nor written. *)
Theorem help_prints_usage_only argv now d :
  head argv = None ∨ head argv = Some "" ∨ head argv = Some "help" →
  run argv now d = Completion 0 [Stdout Help] d.
Proof.
  destruct argv as [|command args]; [reflexivity|].
  cbn [head]. intros [[=]|[[= ->]|[= ->]]]; reflexivity.
Qed.

Lemma help_prints_usage_only_witness :
  run ["help"; "me"] 1700000000000 (Disk (Some (Malformed "Unexpected token")) None) =
    Completion 0 [Stdout Help] (Disk (Some (Malformed "Unexpected token")) None).
Proof. apply help_prints_usage_only. right. right. reflexivity. Defined.

(** A first argument that is none of the command names, which are matched
    exactly and in lower case, is reported on standard error; the help text
    follows on standard output and the exit code is 1.  The data file is
    neither read nor written. *)
Theorem unknown_command_is_rejected command args now d :
  command ∉ commands →
  run (command :: args) now d =
    Completion 1 [Stderr (UnknownCommand command); Stdout Help] d.
Proof.
  intros H. unfold run, main. cbn [head].
  repeat (destruct (decide (Some command = Some _)) as [[= ->]|_];
          [exfalso; apply H; unfold commands; set_solver|]).
  destruct (decide (_ ∨ _)) as [[[= ->]|[[=]|[= ->]]]|_];
    [exfalso; apply H; unfold commands; set_solver..|].
  reflexivity.
Qed.

Lemma unknown_command_is_rejected_witness :
  run ["Add"; "Buy milk"] 1700000000000 oneTask =
    Completion 1 [Stderr (UnknownCommand "Add"); Stdout Help] oneTask.
Proof.
  apply unknown_command_is_rejected.
  apply (bool_decide_unpack _). vm_compute. reflexivity.
Defined.

(** The handlers check the number of their arguments, and [list] its filter,
    before they load the collection: [update] with fewer than two arguments
    (an id without a description included), [delete] and the two marks with
    none, and [list] with a filter other than the three statuses each print
    their usage line on standard error and end with exit code 1, and the data
    file is neither read nor written.  An empty filter is no filter: [list]
    then prints every task. *)
Theorem usage_errors_precede_loading now d :
  (∀ args, length args < 2 →
     run ("update" :: args) now d = Completion 1 [Stderr UsageUpdate] d) ∧
  run ["delete"] now d = Completion 1 [Stderr UsageDelete] d ∧
  run ["mark-in-progress"] now d = Completion 1 [Stderr (UsageMark "mark-in-progress")] d ∧
  run ["mark-done"] now d = Completion 1 [Stderr (UsageMark "mark-done")] d ∧
  (∀ filter rest, filter ≠ "" → filter ∉ allowed →
     run ("list" :: filter :: rest) now d = Completion 1 [Stderr UsageList] d) ∧
  (∀ rest, run ("list" :: "" :: rest) now d = run ["list"] now d).
Proof.
  split; [intros args Hargs; by apply run_update_usage|].
  do 3 (split; [reflexivity|]). split.
  - intros filter rest Hne Hout. rewrite run_list. cbn [head default].
    rewrite bool_decide_true by (split; [by eexists|congruence]).
    by rewrite bool_decide_false.
  - intros rest. rewrite !run_list. cbn [head default].
    rewrite (bool_decide_false (is_Some (Some "") ∧ _)) by (intros [_ H]; done).
    by rewrite (bool_decide_false (is_Some None ∧ _)) by (intros [[? ?] _]; done).
Qed.

(** [delete], the two marks and [list] read their first argument only: what
    follows it on the command line changes nothing. *)
Theorem first_argument_only command arg0 rest now d :
  command ∈ unary →
  run (command :: arg0 :: rest) now d = run [command; arg0] now d.
Proof.
  intros H. apply list_elem_of_In in H. cbn in H.
  destruct H as [<-|[<-|[<-|[<-|[]]]]].
  - by rewrite !run_delete.
  - by rewrite !(run_mark _ "in-progress") by set_solver.
  - by rewrite !(run_mark _ "done") by set_solver.
  - by rewrite !run_list.
Qed.

Lemma first_argument_only_witness :
  run ["delete"; "1"; "2"] 1700000120000 twoTasks = run ["delete"; "1"] 1700000120000 twoTasks.
Proof. apply (first_argument_only "delete"). repeat constructor. Defined.

End Dispatch.

(** ** The next id *)
Module NextId.
Import Text Num Json Proc TaskCli Notions Handlers Lookup Lifecycle.

Lemma positiveInteger_Some x z :
  positiveInteger x = Some z ↔ x = Int z ∧ (0 < z)%Z.
Proof.
  destruct x as [| |k|]; cbn; try (split; [done|by intros [? _]]).
  destruct (Z.ltb_spec 0 k); split.
  - intros [= ->]. done.
  - intros [[= ->] _]. done.
  - done.
  - intros [[= ->] ?]. lia.
Qed.

Lemma mapM_idOf l ns :
  mapM idOf l = Ok ns ↔ Forall2 (λ t n, idOf t = Ok n) l ns.
Proof.
  revert ns. induction l as [|t l IH]; intros ns; cbn.
  - split; [intros [= <-]; constructor|]. intros ->%Forall2_nil_inv_l. reflexivity.
  - destruct (idOf t) as [n|e] eqn:Ht; cbn.
    + destruct (mapM idOf l) as [ns'|e] eqn:Hl; cbn.
      * split.
        -- intros [= <-]. constructor; [done|]. by apply IH.
        -- intros (n' & ns'' & Hn & Hns & ->)%Forall2_cons_inv_l.
           apply IH in Hns. rewrite Ht in Hn.
           injection Hn as <-. injection Hns as <-. reflexivity.
      * split; [done|].
        intros (n' & ns'' & Hn & Hns & ->)%Forall2_cons_inv_l.
        apply IH in Hns. done.
    + split; [done|]. intros (n' & ns'' & Hn & Hns & ->)%Forall2_cons_inv_l. congruence.
Qed.

Lemma mapM_idOf_total l :
  Forall (λ t, ∃ x, idOf t = Ok x) l ↔ ∃ ns, mapM idOf l = Ok ns.
Proof.
  split.
  - induction 1 as [|t l [x Hx] _ [ns IH]]; [by exists []|].
    exists (x :: ns). cbn. by rewrite Hx, IH.
  - intros [ns Hns%mapM_idOf]. induction Hns; constructor; eauto.
Qed.

(** [getNextId] in closed form. *)
Lemma getNextId_eq l ns :
  mapM idOf l = Ok ns → getNextId l = Ok (Int (nextId (omap positiveInteger ns))).
Proof.
  intros Hns. unfold getNextId. rewrite Hns. cbn.
  by destruct (omap positiveInteger ns).
Qed.

Lemma getNextId_inv l n :
  getNextId l = Ok n →
  ∃ ns, mapM idOf l = Ok ns ∧ n = Int (nextId (omap positiveInteger ns)).
Proof.
  intros Hn. destruct (mapM idOf l) as [ns|e] eqn:Hns.
  - exists ns. split; [done|]. rewrite (getNextId_eq _ _ Hns) in Hn. by injection Hn.
  - unfold getNextId in Hn. by rewrite Hns in Hn.
Qed.

Lemma omap_positive ns : Forall (λ z, 0 < z)%Z (omap positiveInteger ns).
Proof.
  induction ns as [|n ns IH]; cbn; [constructor|].
  destruct (positiveInteger n) as [z|] eqn:Hz; [|done].
  constructor; [|done]. by apply positiveInteger_Some in Hz as [_ ?].
Qed.

(** The next id is 1, or the successor of a stored id; it is positive, and
    larger than every integer id stored. *)
Lemma nextId_of_ids l ns :
  Forall2 (λ t n, idOf t = Ok n) l ns →
  let z := nextId (omap positiveInteger ns) in
  (1 ≤ z)%Z ∧
  (∀ t k, t ∈ l → idOf t = Ok (Int k) → (k < z)%Z) ∧
  (z = 1%Z ∨ ∃ t, t ∈ l ∧ idOf t = Ok (Int (z - 1))).
Proof.
  intros Hns. cbn zeta.
  destruct (nextId_spec _ (omap_positive ns)) as (Hpos & Hlt & Hnil & Hmax).
  split; [lia|]. split.
  - intros t k Ht Hk. destruct (decide (0 < k)%Z) as [Hk0|]; [|lia].
    rewrite Forall_forall in Hlt. apply Hlt.
    clear -Hns Ht Hk Hk0. induction Hns as [|t' n l ns Hn _ IH]; [by apply elem_of_nil in Ht|].
    cbn. apply elem_of_cons in Ht as [->|Ht].
    + rewrite Hk in Hn. injection Hn as <-. cbn.
      rewrite (proj2 (Z.ltb_lt 0 k) Hk0). by left.
    + destruct (positiveInteger n); [right|]; by apply IH.
  - destruct (omap positiveInteger ns) as [|z r] eqn:Hids; [by left|right].
    destruct (foldl_max_spec z r) as [Hin _]. cbn [nextId].
    replace (foldl Z.max z r + 1 - 1)%Z with (foldl Z.max z r) by lia.
    rewrite <- Hids in Hin. clear -Hns Hin.
    generalize dependent (foldl Z.max z r). clear z r. intros mx Hin.
    induction Hns as [|t n l ns Hn _ IH]; [by apply elem_of_nil in Hin|].
    cbn in Hin. destruct (positiveInteger n) as [p|] eqn:Hz.
    + apply elem_of_cons in Hin as [->|Hin].
      * apply positiveInteger_Some in Hz as [-> _]. exists t. split; [by left|done].
      * destruct (IH Hin) as (t' & ? & ?). exists t'. split; [by right|done].
    + destruct (IH Hin) as (t' & ? & ?). exists t'. split; [by right|done].
Qed.

(** [getNextId] on a collection in which every id can be read as a number,
    the integer ones below 2^53: it returns a positive integer, larger than
    every integer id of the collection, and either 1 or the successor of one
    of these ids.  So ids that are missing, or are not positive integers,
    count for nothing, and an id written as a string of digits counts for
    its number. *)
Theorem getNextId_exceeds_stored_ids l :
  Forall (λ t, ∃ x, idOf t = Ok x) l → safeIds l →
  ∃ z, getNextId l = Ok (Int z) ∧ (1 ≤ z)%Z ∧
       (∀ t k, t ∈ l → idOf t = Ok (Int k) → (k < z)%Z) ∧
       (z = 1%Z ∨ ∃ t, t ∈ l ∧ idOf t = Ok (Int (z - 1))).
Proof.
  intros [ns Hns]%mapM_idOf_total _.
  exists (nextId (omap positiveInteger ns)).
  split; [by apply getNextId_eq|]. by apply nextId_of_ids, mapM_idOf.
Qed.

Lemma getNextId_exceeds_stored_ids_witness :
  ∃ z, getNextId handEdited = Ok (Int z) ∧ (1 ≤ z)%Z ∧
       (∀ t k, t ∈ handEdited → idOf t = Ok (Int k) → (k < z)%Z) ∧
       (z = 1%Z ∨ ∃ t, t ∈ handEdited ∧ idOf t = Ok (Int (z - 1))).
Proof.
  apply getNextId_exceeds_stored_ids.
  - repeat constructor; eexists; vm_compute; reflexivity.
  - unfold safeIds, handEdited.
    repeat match goal with
           | |- Forall _ [] => constructor
           | |- Forall _ (?t :: _) =>
               constructor; [intros k; evaluate (idOf t); intros [= <-]; reflexivity|]
           end.
Defined.

End NextId.

(** ** Listing *)
Module Listing.
Import Text Num Json Proc TaskCli Notions Handlers Search Lookup Lifecycle NextId.


(** [list] with no filter on the collection [l], the data file read without
    a warning. *)
Lemma run_list_all now f w :
  loadWarning (Disk f w) = [] →
  run ["list"] now (Disk f w) =
    let l := stored (Disk f w) in
    if bool_decide (length l = 0) then Completion 0 [Stdout NothingToShow] (Disk f w)
    else match listing l with
         | (out, None) => Completion 0 out (Disk f w)
         | (out, Some e) => Completion 1 (out ++ [Stderr (Uncaught e)]) (Disk f w)
         end.
Proof.
  intros Hw. rewrite run_list. cbn [head default]. rewrite Hw.
  rewrite bool_decide_false by (intros [[? [=]] _]). cbn [andb app].
  case_bool_decide; [done|]. by destruct (listing _) as [out [e|]].
Qed.

Lemma withStatus_Ok filter l :
  JNull ∉ l → withStatus filter l = Ok (List.filter (hasStatus filter) l).
Proof.
  intros Hl. apply filterM_Ok. apply Forall_forall. intros t Ht.
  destruct t; try (eexists; reflexivity). done.
Qed.

(** [list] with one of the three statuses as its filter, on a collection
    that holds no [null], prints what [list] without a filter prints of the
    tasks whose [status] is that string, in stored order, after the warning
    of [loadTasks] if there is one; the exit codes are the same, and the data
    file stays as it is. *)
Theorem list_filters_by_status filter rest now d :
  filter ∈ allowed → JNull ∉ stored d →
  let c := run ("list" :: filter :: rest) now d in
  let c' := run ["list"] now
              (Disk (Some (Document (JArr (List.filter (hasStatus filter) (stored d)))))
                    (writeError d)) in
  exitCode c = exitCode c' ∧ output c = loadWarning d ++ output c' ∧ after c = d.
Proof.
  intros Hf Hd. cbn zeta. rewrite run_list_all by done.
  rewrite run_list. cbn [head default stored file].
  rewrite bool_decide_true.
  2:{ split; [by eexists|]. intros [= ->].
      apply list_elem_of_In in Hf. cbn in Hf. intuition discriminate. }
  rewrite (bool_decide_true (filter ∈ allowed)) by done. cbn [negb andb].
  rewrite withStatus_Ok by done. unfold id.
  case_bool_decide; [done|].
  by destruct (listing _) as [out [e|]].
Qed.

Lemma list_filters_by_status_witness :
  let c := run ["list"; "todo"] 1700000120000 twoTasks in
  let c' := run ["list"] 1700000120000
              (Disk (Some (Document (JArr (List.filter (hasStatus "todo") (stored twoTasks)))))
                    (writeError twoTasks)) in
  exitCode c = exitCode c' ∧ output c = loadWarning twoTasks ++ output c' ∧
  after c = twoTasks.
Proof.
  apply list_filters_by_status.
  - repeat constructor.
  - intros H. apply list_elem_of_In in H. vm_compute in H. intuition discriminate.
Defined.




End Listing.

(** ** How an invocation ends *)
Module Outcome.
Import Text Num Json Proc TaskCli Notions.
Import Handlers Search Lookup Persistence Addressing Lifecycle NextId.

Lemma failed_carry d m : failed d m = carry (Stop [] m) d.
Proof. reflexivity. Qed.

Lemma touch_plan id k v ok now f :
  confirms ok = true →
  ∃ p, sound p ∧ ∀ w, touch id k v ok now (Disk f w) = carry p (Disk f w).
Proof.
  intros Hok. unfold touch. change (stored (Disk f ?w)) with (stored (Disk f None)).
  destruct (findById id (stored (Disk f None))) as [[i|]|e].
  - destruct (amend (stored (Disk f None)) i k v now) as [tasks|e].
    + by exists (Save tasks ok).
    + by exists (Stop [] (Uncaught e)).
  - by exists (Stop [] (NotFound id)).
  - by exists (Stop [] (Uncaught e)).
Qed.

Lemma listing_lines l : forallb isLine (listing l).1 = true.
Proof.
  induction l as [|t l IH]; cbn; [done|].
  destruct (taskLine t); [|done]. by destruct (listing l).
Qed.

(** Every invocation follows a plan that does not depend on whether the
    data file can be written. *)
Lemma run_plan argv now f :
  ∃ p, sound p ∧ ∀ w, run argv now (Disk f w) = carry p (Disk f w).
Proof.
  destruct argv as [|command args]; [by exists Tell|].
  destruct (decide (command ∈ commands)) as [Hin|Hout].
  2:{ exists (Refuse (UnknownCommand command) true). split; [done|]. intros w.
      unfold run, main. cbn [head].
      repeat (destruct (decide (Some command = Some _)) as [[= ->]|_];
              [exfalso; apply Hout; unfold commands; set_solver|]).
      destruct (decide (_ ∨ _)) as [[[= ->]|[[=]|[= ->]]]|_];
        [exfalso; apply Hout; unfold commands; set_solver..|].
      reflexivity. }
  apply list_elem_of_In in Hin. cbn in Hin.
  destruct Hin as [<-|[<-|[<-|[<-|[<-|[<-|[<-|[<-|[]]]]]]]]].
  - destruct args as [|name rest]; [by exists (Refuse UsageAdd false)|].
    destruct (getNextId (stored (Disk f None))) as [id|e] eqn:Hid.
    + eexists (Save _ (Added id)). split; [done|]. intros w. rewrite run_add.
      change (stored (Disk f w)) with (stored (Disk f None)). rewrite Hid. reflexivity.
    + exists (Stop [] (Uncaught e)). split; [done|]. intros w. rewrite run_add.
      change (stored (Disk f w)) with (stored (Disk f None)). by rewrite Hid.
  - destruct args as [|a0 [|a1 rest]].
    1,2: exists (Refuse UsageUpdate false); split; [done|]; intros w;
         by rewrite run_update_usage by (cbn; lia).
    destruct (isNaN (parseInt a0 10)) eqn:Hnan.
    + exists (Refuse InvalidId false). split; [done|]. intros w.
      rewrite run_update. cbn zeta. by rewrite Hnan.
    + destruct (touch_plan (parseInt a0 10) "description" (join " " (a1 :: rest))
                  (Updated (parseInt a0 10)) now f eq_refl) as (p & Hp & Hrun).
      exists p. split; [done|]. intros w. rewrite run_update. cbn zeta.
      by rewrite Hnan.
  - destruct args as [|a0 rest]; [by exists (Refuse UsageDelete false)|].
    destruct (isNaN (parseInt a0 10)) eqn:Hnan.
    + exists (Refuse InvalidId false). split; [done|]. intros w.
      rewrite run_delete. cbn zeta. by rewrite Hnan.
    + destruct (dropById (parseInt a0 10) (stored (Disk f None))) as [tasks|e] eqn:Hdrop.
      * destruct (decide (length tasks = length (stored (Disk f None)))) as [Hlen|Hlen].
        -- exists (Stop [] (NotFound (parseInt a0 10))). split; [done|]. intros w.
           rewrite run_delete. cbn zeta. rewrite Hnan.
           change (stored (Disk f w)) with (stored (Disk f None)). rewrite Hdrop.
           by rewrite bool_decide_true.
        -- exists (Save tasks (Deleted (parseInt a0 10))). split; [done|]. intros w.
           rewrite run_delete. cbn zeta. rewrite Hnan.
           change (stored (Disk f w)) with (stored (Disk f None)). rewrite Hdrop.
           by rewrite bool_decide_false.
      * exists (Stop [] (Uncaught e)). split; [done|]. intros w.
        rewrite run_delete. cbn zeta. rewrite Hnan.
        change (stored (Disk f w)) with (stored (Disk f None)). by rewrite Hdrop.
  - destruct args as [|a0 rest].
    { exists (Refuse (UsageMark "mark-in-progress") false). split; [done|]. intros w.
      by rewrite (run_mark_usage _ "in-progress") by set_solver. }
    destruct (isNaN (parseInt a0 10)) eqn:Hnan.
    + exists (Refuse InvalidId false). split; [done|]. intros w.
      rewrite (run_mark _ "in-progress") by set_solver. cbn zeta. by rewrite Hnan.
    + destruct (touch_plan (parseInt a0 10) "status" "in-progress"
                  (Marked (parseInt a0 10) "in-progress") now f eq_refl) as (p & Hp & Hrun).
      exists p. split; [done|]. intros w.
      rewrite (run_mark _ "in-progress") by set_solver. cbn zeta. by rewrite Hnan.
  - destruct args as [|a0 rest].
    { exists (Refuse (UsageMark "mark-done") false). split; [done|]. intros w.
      by rewrite (run_mark_usage _ "done") by set_solver. }
    destruct (isNaN (parseInt a0 10)) eqn:Hnan.
    + exists (Refuse InvalidId false). split; [done|]. intros w.
      rewrite (run_mark _ "done") by set_solver. cbn zeta. by rewrite Hnan.
    + destruct (touch_plan (parseInt a0 10) "status" "done"
                  (Marked (parseInt a0 10) "done") now f eq_refl) as (p & Hp & Hrun).
      exists p. split; [done|]. intros w.
      rewrite (run_mark _ "done") by set_solver. cbn zeta. by rewrite Hnan.
  - set (given := bool_decide (is_Some (head args) ∧ head args ≠ Some "")).
    set (filter := default "" (head args)).
    destruct (given && negb (bool_decide (filter ∈ allowed))) eqn:Hbad.
    { exists (Refuse UsageList false). split; [done|]. intros w.
      rewrite run_list. cbn zeta. fold given filter. by rewrite Hbad. }
    destruct (if given then withStatus filter (stored (Disk f None))
              else Ok (stored (Disk f None))) as [toPrint|e] eqn:Hsel.
    + destruct (decide (length toPrint = 0)) as [Hlen|Hlen].
      * exists (Display [Stdout NothingToShow]). split; [done|]. intros w.
        rewrite run_list. cbn zeta. fold given filter. rewrite Hbad.
        change (stored (Disk f w)) with (stored (Disk f None)). rewrite Hsel.
        by rewrite bool_decide_true.
      * pose proof (listing_lines toPrint) as Hlines.
        destruct (listing toPrint) as [out [e|]] eqn:Hl; cbn [fst] in Hlines.
        -- exists (Stop out (Uncaught e)). split; [done|]. intros w.
           rewrite run_list. cbn zeta. fold given filter. rewrite Hbad.
           change (stored (Disk f w)) with (stored (Disk f None)). rewrite Hsel.
           rewrite bool_decide_false by done. by rewrite Hl.
        -- exists (Display out). split; [done|]. intros w.
           rewrite run_list. cbn zeta. fold given filter. rewrite Hbad.
           change (stored (Disk f w)) with (stored (Disk f None)). rewrite Hsel.
           rewrite bool_decide_false by done. by rewrite Hl.
    + exists (Stop [] (Uncaught e)). split; [done|]. intros w.
      rewrite run_list. cbn zeta. fold given filter. rewrite Hbad.
      change (stored (Disk f w)) with (stored (Disk f None)). by rewrite Hsel.
  - by exists Tell.
  - by exists Tell.
Qed.

Lemma existsb_loadWarning d : existsb isError (loadWarning d) = false.
Proof. unfold loadWarning. by destruct (file d) as [[]|]. Qed.

Lemma existsb_lines lines : forallb isLine lines = true → existsb isError lines = false.
Proof.
  induction lines as [|[]]; cbn; try done.
Qed.

(** The exit code is 0 or 1, and it is 1 exactly when an error line was
    printed: a line on standard error other than the warning that the data
    file could not be parsed, which by itself leaves the exit code at 0. *)
Theorem exit_code_tells_errors argv now d :
  exitCode (run argv now d) =
    if existsb isError (output (run argv now d)) then 1%Z else 0%Z.
Proof.
  destruct d as [f w]. destruct (run_plan argv now f) as (p & Hp & ->).
  destruct p as [m help| |lines m|lines|tasks m]; cbn [carry sound] in *.
  - cbn [exitCode output existsb]. destruct m; try done.
  - done.
  - destruct Hp as [Hlines Hm]. cbn [exitCode output].
    rewrite !existsb_app, existsb_loadWarning, (existsb_lines _ Hlines).
    cbn [existsb orb]. destruct m; try done.
  - cbn [exitCode output].
    by rewrite !existsb_app, existsb_loadWarning, (existsb_lines _ Hp).
  - unfold saved, failed. destruct w as [err|]; cbn [writeError exitCode output].
    + by rewrite !existsb_app, existsb_loadWarning.
    + by rewrite !existsb_app, existsb_loadWarning.
Qed.

(** What a data file that cannot be written changes: nothing for an
    invocation that would not have written, which prints the same lines and
    ends with the same exit code; an invocation that would have saved the
    collection prints the error of the write in place of its confirmation,
    after the warning of [loadTasks] if there is one, and ends with exit
    code 1.  The file stays as it is in both cases. *)
Theorem write_failure_replaces_confirmation argv now f err :
  let c0 := run argv now (Disk f None) in
  let c := run argv now (Disk f (Some err)) in
  after c = Disk f (Some err) ∧
  (writes (output c0) = [] → exitCode c = exitCode c0 ∧ output c = output c0) ∧
  (writes (output c0) ≠ [] →
   exitCode c = 1%Z ∧ output c = loadWarning (Disk f None) ++ [Stderr (ErrSave err)] ∧
   ∃ tasks m, confirms m = true ∧
              output c0 = loadWarning (Disk f None) ++ [Write (JArr tasks); Stdout m]).
Proof.
  cbn zeta. destruct (run_plan argv now f) as (p & Hp & Hrun). rewrite !Hrun.
  assert (∀ lines, forallb isLine lines = true → writes lines = []) as Hnone.
  { induction lines as [|[]]; cbn; try done. }
  change (loadWarning (Disk f ?w)) with (loadWarning (Disk f None)).
  destruct p as [m help| |lines m|lines|tasks m]; cbn [carry sound] in *.
  - split; [done|]. split; [done|]. intros Hw. exfalso. apply Hw.
    cbn [output]. by destruct help.
  - split; [done|]. split; [done|]. intros Hw. by exfalso.
  - destruct Hp as [Hlines _]. split; [done|]. split; [done|]. intros Hw. exfalso.
    apply Hw. cbn [output].
    by rewrite !writes_app, writes_loadWarning, (Hnone _ Hlines).
  - split; [done|]. split; [done|]. intros Hw. exfalso.
    apply Hw. cbn [output]. by rewrite !writes_app, writes_loadWarning, (Hnone _ Hp).
  - unfold saved, failed. cbn [writeError after exitCode output].
    change (loadWarning (Disk f ?w)) with (loadWarning (Disk f None)).
    split; [done|]. split.
    + rewrite writes_app, writes_loadWarning. done.
    + intros _. split; [done|]. split; [done|]. by exists tasks, m.
Qed.

(** When nothing can be loaded from the data file, because it is absent,
    blank, not parsable, or holds a JSON value that is not an array (or an
    empty array), [add] starts a collection of its own: the file is
    overwritten with the one new task, whose id is 1.  What the file held is
    lost without an error. *)
Theorem add_starts_over name rest now d :
  stored d = [] → writeError d = None →
  let task := newTask (Int 1) name (join " " rest) (toISOString now) in
  run ("add" :: name :: rest) now d =
    Completion 0 (loadWarning d ++ [Write (JArr [task]); Stdout (Added (Int 1))])
      (Disk (Some (Document (JArr [task]))) None).
Proof.
  intros Hd Hw. cbn zeta. rewrite run_add, Hd. cbn zeta.
  change (getNextId []) with (Ok (Int 1)). cbn iota.
  rewrite saved_ok by done. cbn [app].
  destruct rest; [done|]. by rewrite bool_decide_true by (cbn; lia).
Qed.

Lemma add_starts_over_witness :
  run ["add"; "Buy milk"] 1700000000000 wrapped =
    Completion 0
      [Write (JArr [newTask (Int 1) "Buy milk" (join " " []) (toISOString 1700000000000)]);
       Stdout (Added (Int 1))]
      (Disk (Some (Document
         (JArr [newTask (Int 1) "Buy milk" (join " " []) (toISOString 1700000000000)]))) None).
Proof. apply (add_starts_over "Buy milk" [] 1700000000000 wrapped); reflexivity. Defined.

End Outcome.

(** ** One invocation after another *)
Module Composition.
Import Text Num Json Proc TaskCli Notions.
Import Handlers Search Lookup Persistence Arguments Addressing Lifecycle NextId.










Lemma idOf_newTask z name description now :
  idOf (newTask (Int z) name description now) = Ok (Int z).
Proof.
  unfold idOf. by destruct (newTask_fields (Int z) name description now) as [-> _].
Qed.

(** What a successful [add] leaves, and the id it announces. *)
Lemma add_done name rest now d :
  exitCode (run ("add" :: name :: rest) now d) = 0%Z →
  ∃ ns task,
    Forall2 (λ t n, idOf t = Ok n) (stored d) ns ∧
    idOf task = Ok (Int (nextId (omap positiveInteger ns))) ∧
    run ("add" :: name :: rest) now d =
      Completion 0 (loadWarning d ++ [Write (JArr (stored d ++ [task]));
                                      Stdout (Added (Int (nextId (omap positiveInteger ns))))])
        (Disk (Some (Document (JArr (stored d ++ [task])))) None).
Proof.
  rewrite run_add. destruct (getNextId (stored d)) as [id|e] eqn:Hid; [|done].
  apply getNextId_inv in Hid as (ns & Hns%mapM_idOf & ->). cbn zeta.
  unfold saved. destruct (writeError d); [done|]. intros _.
  eexists ns, _. split; [done|]. split; [apply idOf_newTask|done].
Qed.







End Composition.

(** ** The id as it is printed and as it is read *)
Module IdText.
Import Text Num Json Proc TaskCli Notions.
Import Handlers Search Lookup Rounding Arguments Addressing Lifecycle NextId Composition.

Lemma append_cons c (s t : string) : String c s +:+ t = String c (s +:+ t).
Proof. reflexivity. Qed.

Lemma append_assoc (a b c : string) : (a +:+ b) +:+ c = a +:+ (b +:+ c).
Proof. induction a as [|x a IH]; [done|]. by rewrite !append_cons, IH. Qed.

Lemma append_nil_r (a : string) : a +:+ "" = a.
Proof. induction a as [|x a IH]; [done|]. by rewrite append_cons, IH. Qed.

Lemma length_append (a b : string) :
  String.length (a +:+ b) = String.length a + String.length b.
Proof. induction a as [|x a IH]; [done|]. rewrite append_cons. cbn. by rewrite IH. Qed.

Lemma pretty_N_go_app x s : pretty_N_go x s = pretty_N_go x "" +:+ s.
Proof.
  revert s. induction (N.lt_wf_0 x) as [x _ IH]; intros s.
  destruct (decide (x = 0)%N) as [->|]; [done|].
  rewrite !(pretty_N_go_step x) by lia.
  rewrite (IH (x `div` 10)%N) by (apply N.div_lt; lia).
  rewrite (IH (x `div` 10)%N (ltac:(apply N.div_lt; lia)) (String _ "")).
  by rewrite append_assoc.
Qed.

Lemma pretty_N_char_digit r :
  (r < 10)%N → radixDigit 10 (pretty_N_char r) = Some (Z.of_N r).
Proof.
  intros Hr.
  assert (r = 0 ∨ r = 1 ∨ r = 2 ∨ r = 3 ∨ r = 4 ∨ r = 5 ∨ r = 6 ∨ r = 7 ∨ r = 8 ∨ r = 9)%N
    as Hcases by lia.
  repeat (destruct Hcases as [->|Hcases]; [reflexivity|]). by subst.
Qed.

Lemma allDigits_app a b : allDigits (a +:+ b) = allDigits a && allDigits b.
Proof.
  induction a as [|x a IH]; [done|].
  rewrite append_cons. cbn [allDigits]. by rewrite IH, andb_assoc.
Qed.

Lemma scanDigits_app a b :
  allDigits a = true →
  scanDigits 10 (a +:+ b) = ((scanDigits 10 a).1 ++ (scanDigits 10 b).1, (scanDigits 10 b).2).
Proof.
  induction a as [|x a IH].
  - intros _. change ("" +:+ b) with b. cbn [scanDigits fst app]. by destruct (scanDigits 10 b).
  - rewrite append_cons. cbn [allDigits scanDigits].
    intros [Hx Ha]%andb_true_iff. unfold isDigit in Hx.
    apply bool_decide_eq_true in Hx as [v Hv]. rewrite Hv.
    rewrite (IH Ha). by destruct (scanDigits 10 a).
Qed.

(** The text of a natural number is made of its decimal digits. *)
Lemma pretty_N_go_digits x :
  allDigits (pretty_N_go x "") = true ∧
  digitsValue 10 (scanDigits 10 (pretty_N_go x "")).1 = Z.of_N x.
Proof.
  induction (N.lt_wf_0 x) as [x _ IH].
  destruct (decide (x = 0)%N) as [->|]; [done|].
  rewrite pretty_N_go_step, pretty_N_go_app by lia.
  destruct (IH (x `div` 10)%N) as [Hall Hval]; [apply N.div_lt; lia|].
  assert (x `mod` 10 < 10)%N as Hr by (apply N.mod_lt; lia).
  split.
  - rewrite allDigits_app, Hall. cbn. unfold isDigit.
    by rewrite (pretty_N_char_digit _ Hr).
  - rewrite scanDigits_app by done. cbn [fst scanDigits].
    rewrite (pretty_N_char_digit _ Hr). cbn [fst]. unfold digitsValue in *.
    rewrite fold_left_app, Hval. cbn [fold_left].
    rewrite (N.div_mod x 10) at 3 by lia. lia.
Qed.

Lemma pretty_N_go_length k x :
  (x < 10 ^ N.of_nat k)%N → String.length (pretty_N_go x "") ≤ k.
Proof.
  revert x. induction k as [|k IH]; intros x Hx.
  - change (10 ^ N.of_nat 0)%N with 1%N in Hx.
    assert (x = 0%N) as -> by lia. rewrite pretty_N_go_0. cbn. lia.
  - destruct (decide (x = 0)%N) as [->|]; [rewrite pretty_N_go_0; cbn; lia|].
    rewrite pretty_N_go_step, pretty_N_go_app, length_append by lia.
    cbn [String.length].
    assert (x `div` 10 < 10 ^ N.of_nat k)%N as Hdiv.
    { apply N.Div0.div_lt_upper_bound.
      rewrite Nat2N.inj_succ, N.pow_succ_r' in Hx. lia. }
    specialize (IH _ Hdiv). lia.
Qed.

Lemma zeros_S n : zeros (S n) = String "0" (zeros n).
Proof. reflexivity. Qed.

Lemma stripZerosEnd_zeros s :
  String.length (stripZerosEnd s) ≤ String.length s ∧
  stripZerosEnd s +:+ zeros (String.length s - String.length (stripZerosEnd s)) = s.
Proof.
  induction s as [|c r [Hlen IH]]; [split; [done|reflexivity]|].
  cbn [stripZerosEnd String.length].
  destruct (stripZerosEnd r) as [|c' r'] eqn:Hr.
  - change ("" +:+ ?t) with t in IH. cbn [String.length] in IH.
    rewrite Nat.sub_0_r in IH.
    destruct (Ascii.eqb_spec c "0") as [->|Hc]; cbn [String.length].
    + split; [lia|]. change ("" +:+ ?t) with t. by rewrite Nat.sub_0_r, zeros_S, IH.
    + split; [lia|]. rewrite append_cons. change ("" +:+ ?t) with t.
      replace (S (String.length r) - 1) with (String.length r) by lia. by rewrite IH.
  - cbn [String.length] in *. split; [lia|]. rewrite append_cons.
    replace (S (String.length r) - S (S (String.length r')))
      with (String.length r - S (String.length r')) by lia.
    by rewrite IH.
Qed.

Lemma pretty_Zpos p : pretty (Z.pos p) = pretty_N_go (N.pos p) "".
Proof. reflexivity. Qed.

(** Number to text, for the integers up to 2^53 in magnitude: all their
    digits. *)
Lemma toString_Int z :
  z ≠ 0%Z → (Z.abs z ≤ 2 ^ 53)%Z →
  toString (Int z) = (if (z <? 0)%Z then "-" else "") +:+ pretty (Z.abs z).
Proof.
  intros Hz Hlt. unfold toString. rewrite (proj2 (Z.eqb_neq z 0) Hz). f_equal.
  rewrite (proj2 (Z.leb_le _ _) Hlt).
  set (full := pretty (Z.abs z)).
  destruct (stripZerosEnd_zeros full) as [Hlen Hfull].
  assert (String.length full ≤ 21) as H21.
  { destruct (Z.abs z) as [|p|p] eqn:Hp; [lia| |lia].
    unfold full. rewrite pretty_Zpos. apply pretty_N_go_length.
    change (10 ^ N.of_nat 21)%N with (Z.to_N (10 ^ 21)). lia. }
  unfold digitsToString.
  rewrite (proj2 (Z.leb_le _ _)) by lia. rewrite (proj2 (Z.leb_le _ 21)) by lia.
  cbn [andb]. rewrite <- Nat2Z.inj_sub, Nat2Z.id by done. exact Hfull.
Qed.

Lemma parseInt_pretty p :
  (Z.pos p ≤ 2 ^ 53)%Z → parseInt (pretty (Z.pos p)) 10 = Int (Z.pos p).
Proof.
  intros Hp. rewrite pretty_Zpos. destruct (pretty_N_go_digits (N.pos p)) as [Hall Hval].
  rewrite <- (append_nil_r (pretty_N_go _ _)).
  rewrite parseInt_digits; [|..|done|done].
  - rewrite Hval. by apply nearestDouble_small.
  - intros Hnil. by rewrite Hnil in Hval.
Qed.

Lemma parseInt_minus p :
  (Z.pos p ≤ 2 ^ 53)%Z → parseInt ("-" +:+ pretty (Z.pos p)) 10 = Int (Z.neg p).
Proof.
  intros Hp. rewrite parseInt_10, pretty_Zpos. cbn [append trimStart isStrWhiteSpaceChar].
  change (isStrWhiteSpaceChar "-") with false. cbn [splitSign fst snd].
  destruct (pretty_N_go_digits (N.pos p)) as [_ Hval].
  destruct (scanDigits 10 _) as [[|d ds] tl]; cbn [fst] in Hval; [done|].
  rewrite Hval. change (Z.of_N (N.pos p)) with (Z.pos p).
  by rewrite nearestDouble_small.
Qed.

(** An integer up to 2^53 in magnitude, printed and read back with
    [parseInt(.., 10)], is the same integer. *)
Lemma parseInt_toString z :
  (Z.abs z ≤ 2 ^ 53)%Z → parseInt (toString (Int z)) 10 = Int z.
Proof.
  intros Hlt. destruct z as [|p|p]; [done|..].
  - rewrite toString_Int by done. by apply parseInt_pretty.
  - rewrite toString_Int by done. by apply parseInt_minus.
Qed.

(** The id that [add] announces, typed back as it was printed, is read as
    that id, and it addresses the task just added and no other: on a
    collection whose integer ids are below 2^53, after a successful [add] the
    first task that answers to the announced id is the last of the
    collection. *)
Theorem announced_id_addresses_new_task name rest now d :
  safeIds (stored d) →
  exitCode (run ("add" :: name :: rest) now d) = 0%Z →
  ∃ z, Stdout (Added (Int z)) ∈ output (run ("add" :: name :: rest) now d) ∧
       parseInt (toString (Int z)) 10 = Int z ∧
       findById (Int z) (stored (after (run ("add" :: name :: rest) now d))) =
         Ok (Some (length (stored d))).
Proof.
  intros Hsafe (ns & task & Hns & Htask & ->)%add_done.
  set (z := nextId (omap positiveInteger ns)) in *.
  destruct (nextId_of_ids _ _ Hns) as (Hpos & Hlt & Hlast). fold z in Hpos, Hlt, Hlast.
  exists z. split; [cbn [output]; set_solver|]. split.
  - apply parseInt_toString.
    assert (z ≤ 2 ^ 53)%Z; [|lia].
    destruct Hlast as [->|(t & Ht & Hid)]; [done|].
    unfold safeIds in Hsafe. rewrite Forall_forall in Hsafe.
    specialize (Hsafe t Ht _ Hid). lia.
  - cbn [after stored file]. apply findById_Some. exists task.
    split; [by rewrite lookup_app_r, Nat.sub_diag|]. split; [done|].
    intros j t' Hj Ht'. rewrite lookup_app_l in Ht' by done.
    destruct (Forall2_lookup_l _ _ _ _ _ Hns Ht') as (x & _ & Hx).
    exists x. split; [done|]. intros ->.
    apply list_elem_of_lookup_2 in Ht'. specialize (Hlt _ _ Ht' Hx). lia.
Qed.

Lemma announced_id_addresses_new_task_witness :
  ∃ z, Stdout (Added (Int z)) ∈ output (run ["add"; "Task C"] 1700000120000 twoTasks) ∧
       parseInt (toString (Int z)) 10 = Int z ∧
       findById (Int z) (stored (after (run ["add"; "Task C"] 1700000120000 twoTasks))) =
         Ok (Some (length (stored twoTasks))).
Proof.
  apply (announced_id_addresses_new_task "Task C" [] 1700000120000 twoTasks).
  - unfold safeIds. evaluate (stored twoTasks).
    repeat match goal with
           | |- Forall _ [] => constructor
           | |- Forall _ (?t :: _) =>
               constructor; [intros k; evaluate (idOf t); intros [= <-]; reflexivity|]
           end.
  - vm_compute. reflexivity.
Defined.

End IdText.

(** ** Marking, and listing what a session left *)
Module Marking.
Import Text Num Json Proc TaskCli Notions.
Import Handlers Search Lookup Persistence Arguments Addressing Lifecycle NextId Listing.



Lemma ToString_field (m : gmap string json) (k : string) :
  (∀ k v, m !! k = Some v → (∃ s, v = JStr s) ∨ (∃ x, v = JNum x) ∨ v = JNull) →
  ∃ s, ToString (m !! k) = Ok s.
Proof.
  intros Hm. destruct (m !! k) as [v|] eqn:Hv; [|by eexists].
  destruct (Hm _ _ Hv) as [[s ->]|[[x ->]| ->]]; by eexists.
Qed.

Lemma taskLine_printable t :
  printable t →
  ∃ id name desc status createdAt updatedAt,
    Get t "id" ≫= ToString = Ok id ∧
    taskLine t = Ok (TaskLine id name desc status createdAt updatedAt).
Proof.
  intros (m & -> & Hm). unfold taskLine. cbn [Get mbind result_bind].
  destruct (ToString_field m "description" Hm) as [sd Hd].
  destruct (ToString_field m "id" Hm) as [sid Hid].
  destruct (ToString_field m "name" Hm) as [sn Hname].
  destruct (ToString_field m "status" Hm) as [ss Hs].
  destruct (ToString_field m "createdAt" Hm) as [sc Hc].
  destruct (ToString_field m "updatedAt" Hm) as [su Hu].
  rewrite Hid, Hname, Hs, Hc, Hu. cbn [mbind result_bind].
  destruct (ToBoolean (m !! "description")).
  - rewrite Hd. cbn [mbind result_bind]. by eexists _, _, _, _, _, _.
  - cbn [mbind result_bind]. by eexists _, _, _, _, _, _.
Qed.

Lemma listing_numbered l zs :
  Forall printable l → Forall2 hasId l zs →
  ∃ out, listing l = (out, None) ∧ Forall2 lineOf out zs.
Proof.
  intros Hp Hids. induction Hids as [|t z l zs Ht _ IH]; [by exists []|].
  apply Forall_cons in Hp as [Hpt Hp]. destruct (IH Hp) as (out & Hout & Hlines).
  destruct (taskLine_printable t Hpt) as (id & name & desc & status & c & u & Hid & Hline).
  unfold hasId in Ht. rewrite Ht in Hid. cbn in Hid. injection Hid as <-.
  cbn [listing]. rewrite Hline, Hout. eexists. split; [done|].
  constructor; [|done]. by eexists _, _, _, _, _.
Qed.

Lemma printable_newTask id name description now :
  printable (newTask id name description now).
Proof.
  eexists. split; [done|]. intros k v Hkv.
  apply elem_of_list_to_map_2, list_elem_of_In in Hkv. cbn in Hkv.
  destruct Hkv as [[= <- <-]|[[= <- <-]|[[= <- <-]|[[= <- <-]|[[= <- <-]|[[= <- <-]|[]]]]]]];
    eauto.
  destruct id as [| |z|m k]; cbn [ofNumber]; eauto.
Qed.

Lemma printable_amended (m : gmap string json) k v now :
  printable (JObj m) → printable (amended m k v now).
Proof.
  intros (m' & [= <-] & Hm). eexists. split; [done|]. intros k' v' Hkv.
  apply lookup_insert_Some in Hkv as [[_ <-]|[_ Hkv]]; [eauto|].
  apply lookup_insert_Some in Hkv as [[_ <-]|[_ Hkv]]; eauto.
Qed.

Lemma run_printable argv now d :
  Forall printable (stored d) → Forall printable (stored (after (run argv now d))).
Proof.
  intros Hd. destruct (run_effect argv now d) as [->|(_ & l' & Hch & ->)]; [done|].
  apply (change_Forall _ _ _ _ _ Hch); [|intros; by apply printable_amended|done].
  intros. apply printable_newTask.
Qed.

(** [list] at any point of a session begun on a fresh installation: it ends
    with exit code 0 and leaves the data file as it is; it prints the notice
    of the empty collection when no task is stored, and otherwise one line
    for each stored task, in stored order, which is the increasing order of
    the ids that the lines show. *)
Theorem list_after_session invs now :
  let d := finally invs fresh in
  let c := run ["list"] now d in
  exitCode c = 0%Z ∧ after c = d ∧
  (stored d = [] → output c = [Stdout NothingToShow]) ∧
  ∃ zs, Forall2 hasId (stored d) zs ∧ StronglySorted Z.lt zs ∧
        (stored d ≠ [] → Forall2 lineOf (output c) zs).
Proof.
  cbn zeta.
  assert (wellNumbered (finally invs fresh) ∧ Forall printable (stored (finally invs fresh)))
    as [[[_ Hw] (zs & Hids & _ & Hsorted)] Hp].
  { apply (session_invariant (λ d, wellNumbered d ∧ Forall printable (stored d))).
    - intros argv now' d [Hn Hp]. split; [by apply run_wellNumbered|by apply run_printable].
    - split; [apply fresh_wellNumbered|constructor]. }
  destruct (finally invs fresh) as [f w]. rewrite run_list_all by done. cbn zeta.
  destruct (listing_numbered _ _ Hp Hids) as (out & Hout & Hlines).
  case_bool_decide as Hlen.
  - split; [done|]. split; [done|]. split; [done|]. exists zs.
    split; [done|]. split; [done|]. intros Hne. by destruct (stored _).
  - rewrite Hout. split; [done|]. split; [done|]. split.
    + intros Hnil. by rewrite Hnil in Hlen.
    + by exists zs.
Qed.

End Marking.

(** ** The scenarios of the specification, run on the model *)
Module Scenarios.
Import Text Num Json Proc TaskCli Notions Handlers Persistence.

(** Scenario 1: the first add on an empty store. *)
Example first_add :
  let c := run ["add"; "Buy milk"] 1700000000000 fresh in
  exitCode c = 0%Z ∧
  output c = [Write (JArr (stored (after c))); Stdout (Added (Int 1))] ∧
  ∃ t, stored (after c) = [t] ∧
       Get t "id" = Ok (Some (JNum (Whole 1))) ∧
       Get t "name" = Ok (Some (JStr "Buy milk")) ∧
       Get t "description" = Ok (Some (JStr "")) ∧
       Get t "status" = Ok (Some (JStr "todo")) ∧
       Get t "createdAt" = Ok (Some (JStr "2023-11-14T22:13:20.000Z")) ∧
       Get t "updatedAt" = Ok (Some (JStr "2023-11-14T22:13:20.000Z")).
Proof.
  cbn zeta. split; [vm_compute; reflexivity|]. split; [vm_compute; reflexivity|].
  eexists. split; [vm_compute; reflexivity|]. repeat split.
Qed.

(** Scenario 2: two adds, then list prints both tasks in insertion order. *)
Example list_in_insertion_order :
  run ["list"] 1700000120000 twoTasks =
    Completion 0
      [Stdout (TaskLine "1" "Task A" None "todo"
                 "2023-11-14T22:13:20.000Z" "2023-11-14T22:13:20.000Z");
       Stdout (TaskLine "2" "Task B" (Some "desc") "todo"
                 "2023-11-14T22:14:20.000Z" "2023-11-14T22:14:20.000Z")]
      twoTasks.
Proof. vm_compute. reflexivity. Qed.

(** Scenario 3: with task 1 deleted, the next add gets id 3. *)
Example add_after_deleting_first :
  let d := after (run ["delete"; "1"] 1700000120000 twoTasks) in
  output (run ["add"; "Task C"] 1700000180000 d) =
    [Write (JArr (stored (after (run ["add"; "Task C"] 1700000180000 d))));
     Stdout (Added (Int 3))].
Proof. vm_compute. reflexivity. Qed.

(** Scenario 5: a filter that selects nothing. *)
Example list_done_when_none_is :
  run ["list"; "done"] 1700000120000 twoTasks =
    Completion 0 [Stdout NothingToShow] twoTasks.
Proof. vm_compute. reflexivity. Qed.

(** A filter that is not a status, and a command that is not one. *)
Example list_rejects_other_filters :
  run ["list"; "later"] 1700000120000 twoTasks = Completion 1 [Stderr UsageList] twoTasks.
Proof. vm_compute. reflexivity. Qed.

Example unknown_command :
  run ["remove"; "1"] 1700000120000 twoTasks =
    Completion 1 [Stderr (UnknownCommand "remove"); Stdout Help] twoTasks.
Proof. vm_compute. reflexivity. Qed.

(** A stored [null] makes every handler that visits it throw. *)
Example null_task_throws :
  run ["list"] 0 (Disk (Some (Document (JArr [JNull]))) None) =
    Completion 1 [Stderr (Uncaught (ReadOfNull "description"))]
      (Disk (Some (Document (JArr [JNull]))) None).
Proof. vm_compute. reflexivity. Qed.

(** What [parseInt] and [Number] make of some strings. *)
Example parseInt_samples :
  (λ s, parseInt s 10) <$> ["2abc"; " 42"; "-7.9"; "+3"; "abc"; ""; "0x1f"; "1e3"; "-0"] =
  [Int 2; Int 42; Int (-7); Int 3; NaN; NaN; Int 0; Int 1; Int 0].
Proof. vm_compute. reflexivity. Qed.

Example StringToNumber_samples :
  StringToNumber <$> ["1"; " 12 "; "1.50"; "1e3"; "0x10"; "1.0"; ""; "2abc"; "-Infinity"; ".5"] =
  [Int 1; Int 12; Frac 15 1; Int 1000; Int 16; Int 1; Int 0; NaN; Infinity true; Frac 5 1].
Proof. vm_compute. reflexivity. Qed.

(** Numbers are doubles: beyond 2^53 not every integer is one, digits past
    the precision of a double are lost, and a text beyond the largest double
    is read as an infinity. *)
Example parseInt_rounds :
  (λ s, parseInt s 10) <$>
    ["9007199254740992"; "9007199254740993"; "9007199254740995"; "-9007199254740993"] =
  [Int 9007199254740992; Int 9007199254740992; Int 9007199254740996;
   Int (-9007199254740992)].
Proof. vm_compute. reflexivity. Qed.

Example StringToNumber_rounds :
  StringToNumber <$>
    ["1.0000000000000000001"; "9007199254740992.5"; "9007199254740993"; "1e400"; "1e-400";
     "0.1"] =
  [Int 1; Int 9007199254740992; Int 9007199254740992; Infinity false; Int 0;
   Frac 1000000000000000055511151231257827021181583404541015625 55].
Proof. vm_compute. reflexivity. Qed.

Example toString_samples :
  (λ s, toString (StringToNumber s)) <$>
    ["0"; "-12"; "1e21"; "1.50"; "1e-7"; "123.45"; "abc"; "0.1"; "1152921504606846976";
     "9007199254740993"; "1e400"] =
  ["0"; "-12"; "1e+21"; "1.5"; "1e-7"; "123.45"; "NaN"; "0.1"; "1152921504606847000";
   "9007199254740992"; "Infinity"].
Proof. vm_compute. reflexivity. Qed.

(** How [JSON.parse] reads number literals. *)
Example literal_samples :
  literal <$> ["1"; "1.0000000000000000001"; "9007199254740992"; "9007199254740993";
               "2.5"; "-3"; "1e999"] =
  [Some (Whole 1); Some (Whole 1); Some (Whole 9007199254740992);
   Some (Whole 9007199254740992); Some (Part 25 1); Some (Whole (-3)); None].
Proof. vm_compute. reflexivity. Qed.

(** The shortest digits of an integer up to 2^53 are all its digits. *)
Example positiveToString_samples :
  (λ z, positiveToString z 1) <$> [1; 120; 2 ^ 53; 2 ^ 53 - 1; 10 ^ 15; 4503599627370497]%Z =
  (λ z, toString (Int z)) <$> [1; 120; 2 ^ 53; 2 ^ 53 - 1; 10 ^ 15; 4503599627370497]%Z.
Proof. vm_compute. reflexivity. Qed.

(** Ids are compared as numbers: the id written as the string
    ["1.0000000000000000001"] is the number 1, so that the task answers to
    the id argument 1, before the task whose id is written 1, and counts for
    the next id. *)
Example ids_are_compared_as_doubles :
  findById (Int 1) roundedIds = Ok (Some 0) ∧
  getNextId roundedIds = Ok (Int 2) ∧
  run ["delete"; "1"] 1700000000000 (Disk (Some (Document (JArr roundedIds))) None) =
    Completion 0 [Write (JArr []); Stdout (Deleted (Int 1))]
      (Disk (Some (Document (JArr []))) None).
Proof. repeat split; vm_compute; reflexivity. Qed.

Example toISOString_samples :
  toISOString <$> [0; 951782400000; -1; 253402300800000]%Z =
  ["1970-01-01T00:00:00.000Z"; "2000-02-29T00:00:00.000Z";
   "1969-12-31T23:59:59.999Z"; "+010000-01-01T00:00:00.000Z"].
Proof. vm_compute. reflexivity. Qed.

(** Listing is a function of the data file alone, and leaves it alone:
    listing twice prints the same lines twice. *)
Lemma list_twice args now now' d :
  let c := run ("list" :: args) now d in
  run ("list" :: args) now' (after c) = c.
Proof.
  cbn zeta. destruct (list_inert args now d) as [-> _].
  by rewrite !run_list.
Qed.

(** What a handler saves is what the next invocation loads. *)
Lemma saved_is_stored d tasks ok :
  writeError d = None → stored (after (saved d tasks ok)) = tasks.
Proof. intros Hw. unfold saved. by rewrite Hw. Qed.

End Scenarios.
